(** * pgjobq: the data-access statements of [pgjobq/sql/_functions.py]

    The module holds five parameterised SQL statements and the coroutine that
    sends each of them through an asyncpg connection.  This development embeds
    the two tables the statements read and write, the statements themselves,
    and the Python wrappers, and proves what each of them does to the tables,
    what it returns and which notifications it emits. *)

From Stdlib Require Import ZArith NArith List String Ascii Bool Lia.
From Stdlib Require Import Sorting.Sorted Permutation.
Import ListNotations.

Local Open Scope string_scope.
Local Open Scope list_scope.
Local Open Scope Z_scope.

(** ** Column types *)

(** A [uuid] is its 128-bit value; PostgreSQL compares two of them bytewise,
    which is the order of the unsigned big-endian number. *)
Definition uuid := N.

(** [timestamptz] counts microseconds from 2000-01-01; an [interval] is a
    number of them. *)
Definition timestamptz := Z.
Definition interval := Z.

Definition bytea := list Byte.byte.

(** ** Tables *)

Module queues.
Record row := mk {
  id : Z;
  name : string;
  ack_deadline : interval;
  retention_period : interval;
  max_delivery_attempts : Z
}.
End queues.

Module messages.
Record row := mk {
  queue_id : Z;
  id : uuid;
  expires_at : timestamptz;
  delivery_attempts_remaining : Z;
  available_at : timestamptz;
  body : bytea
}.

Definition set_available_at (t : timestamptz) (m : row) : row :=
  mk (queue_id m) (id m) (expires_at m) (delivery_attempts_remaining m) t (body m).

Definition set_delivery_attempts_remaining (n : Z) (m : row) : row :=
  mk (queue_id m) (id m) (expires_at m) n (available_at m) (body m).
End messages.

(** The schema [pgjobq].  A table is the list of its rows; INSERT appends,
    UPDATE rewrites a row where it stands, DELETE removes it. *)
Record database := {
  pgjobq_queues : list queues.row;
  pgjobq_messages : list messages.row
}.

Definition with_messages (db : database) (ms : list messages.row) : database :=
  {| pgjobq_queues := pgjobq_queues db; pgjobq_messages := ms |}.

(** ** Notifications and errors *)

Record notification := { channel : string; payload : string }.

Definition pg_notify (c p : string) : notification :=
  {| channel := c; payload := p |}.

(** SQLSTATE 21000, a subquery used as an expression returned several rows;
    23502, NULL assigned to a column that has to hold a value; 23505, a row
    inserted whose key the table already holds; 22008, a sum that is no
    timestamp. *)
Inductive sqlstate :=
| cardinality_violation
| not_null_violation
| unique_violation
| datetime_field_overflow.

Inductive exception :=
| PostgresError (s : sqlstate)
| LookupError (msg : string).

(** What a statement that ran to completion leaves behind. *)
Record executed (R : Type) := Executed {
  db_after : database;
  notified : list notification;
  returning : list R
}.
Arguments Executed {R}.
Arguments db_after {R}.
Arguments notified {R}.
Arguments returning {R}.

Definition statement (R : Type) := (sqlstate + executed R)%type.

(** What a call of one of the coroutines leaves behind: the tables, the
    notifications sent, and the value returned or the exception raised. *)
Record outcome (A : Type) := Outcome {
  tables : database;
  sent : list notification;
  result : (exception + A)%type
}.
Arguments Outcome {A}.
Arguments tables {A}.
Arguments sent {A}.
Arguments result {A}.

(** ** SQL expressions *)

(** [(SELECT c FROM ...)] used as a value: NULL on no row, the value on one
    row, an error on more. *)
Definition scalar_subquery {A : Type} (rows : list A) : (sqlstate + option A)%type :=
  match rows with
  | [] => inr None
  | [x] => inr (Some x)
  | _ :: _ :: _ => inl cardinality_violation
  end.

(** [SELECT id FROM pgjobq.queues WHERE name = $1], as rows. *)
Definition queues_named (db : database) (queue_name : string) : list queues.row :=
  filter (fun q => String.eqb (queues.name q) queue_name) (pgjobq_queues db).

(** [c = (subquery)]: a comparison with NULL is not true. *)
Definition eq_nullable (x : Z) (v : option Z) : bool :=
  match v with
  | Some y => x =? y
  | None => false
  end.

Definition hex_digit (d : N) : ascii :=
  match d with
  | 0 => "0" | 1 => "1" | 2 => "2" | 3 => "3" | 4 => "4" | 5 => "5"
  | 6 => "6" | 7 => "7" | 8 => "8" | 9 => "9" | 10 => "a" | 11 => "b"
  | 12 => "c" | 13 => "d" | 14 => "e" | _ => "f"
  end%N%char.

Fixpoint hex_digits (width : nat) (n : N) (acc : string) : string :=
  match width with
  | O => acc
  | S w => hex_digits w (N.shiftr n 4) (String (hex_digit (N.land n 15)) acc)
  end.

(** [CAST(u AS text)]: 32 lowercase hexadecimal digits in groups of
    8-4-4-4-12. *)
Definition uuid_text (u : uuid) : string :=
  let h := hex_digits 32 u "" in
  (substring 0 8 h ++ "-" ++ substring 8 4 h ++ "-" ++ substring 12 4 h ++ "-"
     ++ substring 16 4 h ++ "-" ++ substring 20 12 h)%string.

(** [COALESCE($4, '0 seconds'::interval)] *)
Definition COALESCE (v : option interval) (d : interval) : interval :=
  match v with
  | Some x => x
  | None => d
  end.

(** The instants a [timestamptz] holds: from 4713 BC up to, and not
    including, the year 294277. *)
Definition MIN_TIMESTAMP : Z := -211813488000000000.
Definition END_TIMESTAMP : Z := 9223371331200000000.

Definition timestamptz_in_range (t : Z) : bool :=
  (MIN_TIMESTAMP <=? t) && (t <? END_TIMESTAMP).

(** [t + i] on a [timestamptz]: an error when the sum is out of range. *)
Definition timestamptz_pl_interval (t : timestamptz) (i : interval)
    : (sqlstate + timestamptz)%type :=
  if timestamptz_in_range (t + i) then inr (t + i)
  else inl datetime_field_overflow.

(** The key of [pgjobq.messages] is the pair of [queue_id] and [id]: a uuid
    may sit in two queues, not twice in one. *)
Definition same_key (a b : messages.row) : bool :=
  (messages.queue_id a =? messages.queue_id b)
  && N.eqb (messages.id a) (messages.id b).

(** INSERT of one row: refused when the table holds a row with its key. *)
Definition INSERT_INTO_messages (rows : list messages.row) (r : messages.row)
    : (sqlstate + list messages.row)%type :=
  if existsb (same_key r) rows then inl unique_violation else inr (rows ++ [r]).

(** ** Connections *)

(** What a statement sees when it runs on a connection: the tables, the value
    of [now()] for its transaction, and the message rows on which another
    transaction holds a row lock at that moment. *)
Record connection := {
  db : database;
  now : timestamptz;
  locked : messages.row -> bool
}.

(** A statement that fails has no effect. *)
Definition fetch {R : Type} (conn : connection) (s : statement R) : outcome (list R) :=
  match s with
  | inl e => Outcome (db conn) [] (inl (PostgresError e))
  | inr x => Outcome (db_after x) (notified x) (inr (returning x))
  end.

(** First column of the first row, [None] when there is no row. *)
Definition fetchval {R : Type} (conn : connection) (s : statement R) : outcome (option R) :=
  match s with
  | inl e => Outcome (db conn) [] (inl (PostgresError e))
  | inr x => Outcome (db_after x) (notified x) (inr (hd_error (returning x)))
  end.

Definition execute {R : Type} (conn : connection) (s : statement R) : outcome unit :=
  match s with
  | inl e => Outcome (db conn) [] (inl (PostgresError e))
  | inr x => Outcome (db_after x) (notified x) (inr tt)
  end.

(** ** publish *)

(** The row the SELECT of the INSERT makes from one row of [queue_info]. *)
Definition published_row (conn : connection) (q : queues.row)
    (p2 : uuid) (p3 : bytea) (p4 : option interval) : (sqlstate + messages.row)%type :=
  match timestamptz_pl_interval (now conn) (queues.retention_period q),
        timestamptz_pl_interval (now conn) (COALESCE p4 0) with
  | inr expires_at, inr available_at =>
      inr (messages.mk
             (queues.id q)
             p2
             expires_at
             (queues.max_delivery_attempts q)
             available_at
             p3)
  | inl e, _ => inl e
  | inr _, inl e => inl e
  end.

(** The rows are made and inserted one after the other; the first error
    ends the statement. *)
Fixpoint insert_published (conn : connection) (queue_info : list queues.row)
    (p2 : uuid) (p3 : bytea) (p4 : option interval) (rows : list messages.row)
    : (sqlstate + list messages.row)%type :=
  match queue_info with
  | [] => inr rows
  | q :: rest =>
      match published_row conn q p2 p3 p4 with
      | inl e => inl e
      | inr r =>
          match INSERT_INTO_messages rows r with
          | inl e => inl e
          | inr rows' => insert_published conn rest p2 p3 p4 rows'
          end
      end
  end.

(** [queue_info] is the rows of [pgjobq.queues] named [$1].  The INSERT takes
    its rows from [queue_info LEFT JOIN published_notification ON 1 = 1]: the
    notification CTE is the inner side of the join, read when the first
    [queue_info] row asks for it and kept for the following ones, so
    [pg_notify] runs once if [queue_info] has a row and not at all
    otherwise.  A statement that fails leaves no row and no notification. *)
Definition PUBLISH_MESSAGES (conn : connection)
    (p1 : string) (p2 : uuid) (p3 : bytea) (p4 : option interval) : statement Z :=
  let queue_info := queues_named (db conn) p1 in
  let published_notification :=
    match queue_info with
    | [] => []
    | _ :: _ => [pg_notify "pgjobq.new_job" p1]
    end in
  match insert_published conn queue_info p2 p3 p4 (pgjobq_messages (db conn)) with
  | inl e => inl e
  | inr rows =>
      inr (Executed
             (with_messages (db conn) rows)
             published_notification
             (map (fun _ => 1) queue_info))
  end.

Definition publish_messages (conn : connection) (queue_name : string)
    (message_id : uuid) (message_body : bytea) (delay : option interval) : outcome unit :=
  let res := fetchval conn (PUBLISH_MESSAGES conn queue_name message_id message_body delay) in
  match result res with
  | inl e => Outcome (tables res) (sent res) (inl e)
  | inr None =>
      Outcome (tables res) (sent res)
        (inl (LookupError
                ("Queue not found: there is no queue named " ++ queue_name)%string))
  | inr (Some _) => Outcome (tables res) (sent res) (inr tt)
  end.

(** ** poll *)

Module Message.
Record t := mk {
  id : uuid;
  body : bytea;
  next_ack_deadline : timestamptz
}.
End Message.

(** The WHERE clause of [selected_messages]. *)
Definition poll_where (conn : connection) (queue_info_id : option Z)
    (m : messages.row) : bool :=
  negb (messages.delivery_attempts_remaining m =? 0)
  && (messages.expires_at m >? now conn)
  && (messages.available_at m <? now conn)
  && eq_nullable (messages.queue_id m) queue_info_id.

Fixpoint insert_by_id (m : messages.row) (l : list messages.row) : list messages.row :=
  match l with
  | [] => [m]
  | x :: r =>
      if (messages.id m <=? messages.id x)%N then m :: l
      else x :: insert_by_id m r
  end.

(** [ORDER BY id] *)
Definition ORDER_BY_id (l : list messages.row) : list messages.row :=
  fold_right insert_by_id [] l.

(** The SET clause of the poll. *)
Definition poll_set (conn : connection) (q : queues.row) (m : messages.row) : messages.row :=
  messages.set_delivery_attempts_remaining
    (messages.delivery_attempts_remaining m - 1)
    (messages.set_available_at (now conn + queues.ack_deadline q) m).

Definition poll_returning (m : messages.row) : Message.t :=
  Message.mk (messages.id m) (messages.body m) (messages.available_at m).

(** The rows of [selected_messages] before [SELECT id] projects them: the
    rows that pass the WHERE clause, in the order [order_by] gives, without
    those locked elsewhere, cut after [$2] rows. *)
Definition selected_rows (order_by : list messages.row -> list messages.row)
    (conn : connection) (queue_info : queues.row) (p2 : nat) : list messages.row :=
  firstn p2
    (filter (fun m => negb (locked conn m))
       (order_by
          (filter (poll_where conn (Some (queues.id queue_info)))
             (pgjobq_messages (db conn))))).

(** The UPDATE joins [pgjobq.messages] to [selected_messages] on [id] alone
    and touches every row it joins once.  RETURNING lists the rows the UPDATE
    has touched as its scan of [pgjobq.messages] meets them, whatever the
    order of [selected_messages]; SQL promises no order there.  With no queue
    named [$1] both subqueries on [queue_info] are NULL, the WHERE clause
    holds of no row and nothing is selected. *)
Definition _POLL_FOR_MESSAGES (order_by : list messages.row -> list messages.row)
    (conn : connection) (p1 : string) (p2 : nat) : statement Message.t :=
  match scalar_subquery (queues_named (db conn) p1) with
  | inl e => inl e
  | inr None => inr (Executed (db conn) [] [])
  | inr (Some queue_info) =>
      let rows := pgjobq_messages (db conn) in
      let selected_messages :=
        map messages.id (selected_rows order_by conn queue_info p2) in
      let joins m := existsb (N.eqb (messages.id m)) selected_messages in
      inr (Executed
             (with_messages (db conn)
                (map (fun m => if joins m then poll_set conn queue_info m else m) rows))
             []
             (map (fun m => poll_returning (poll_set conn queue_info m))
                (filter joins rows)))
  end.

Definition POLL_FOR_MESSAGES := _POLL_FOR_MESSAGES (fun rows => rows).
Definition POLL_FOR_MESSAGES_FIFO := _POLL_FOR_MESSAGES ORDER_BY_id.

(** [batch_size] is the row count given to LIMIT, which PostgreSQL refuses
    when negative: the counts a poll runs with are the naturals. *)
Definition poll_for_messages (conn : connection) (queue_name : string)
    (batch_size : nat) (fifo : bool) : outcome (list Message.t) :=
  let query := if fifo then POLL_FOR_MESSAGES_FIFO else POLL_FOR_MESSAGES in
  fetch conn (query conn queue_name batch_size).

(** ** ack, nack *)

(** The WHERE clause shared by ack and nack, without its last conjunct. *)
Definition is_job (queue_id : option Z) (job_id : uuid) (m : messages.row) : bool :=
  eq_nullable (messages.queue_id m) queue_id && N.eqb (messages.id m) job_id.

(** The conjunct [1 = (SELECT 1 FROM msg)] mentions no column of the row under
    test: it is computed once, when the statement starts on the rows of the
    queue, and computing it reads [msg], which calls [pg_notify]; it is
    always true.  The rows are sought by [queue_id]: with no queue of that
    name the subquery is NULL, there is nothing to start on, and [msg] is
    never read. *)
Definition job_notification (queue_id : option Z) (n : notification)
    : list notification :=
  match queue_id with
  | Some _ => [n]
  | None => []
  end.

Definition ACK_MESSAGE (conn : connection) (p1 : string) (p2 : uuid) : statement unit :=
  match scalar_subquery (map queues.id (queues_named (db conn) p1)) with
  | inl e => inl e
  | inr queue_id =>
      let msg :=
        job_notification queue_id
          (pg_notify "pgjobq.job_completed" (p1 ++ "," ++ uuid_text p2)%string) in
      inr (Executed
             (with_messages (db conn)
                (filter (fun m => negb (is_job queue_id p2 m))
                   (pgjobq_messages (db conn))))
             msg
             [])
  end.

Definition ack_message (conn : connection) (queue_name : string) (job_id : uuid)
    : outcome unit :=
  execute conn (ACK_MESSAGE conn queue_name job_id).

Definition NACK_MESSAGE (conn : connection) (p1 : string) (p2 : uuid) : statement unit :=
  match scalar_subquery (map queues.id (queues_named (db conn) p1)) with
  | inl e => inl e
  | inr queue_id =>
      let msg := job_notification queue_id (pg_notify "pgjobq.new_job" p1) in
      inr (Executed
             (with_messages (db conn)
                (map (fun m =>
                        if is_job queue_id p2 m
                        then messages.set_available_at (now conn) m
                        else m)
                   (pgjobq_messages (db conn))))
             msg
             [])
  end.

Definition nack_message (conn : connection) (queue_name : string) (job_id : uuid)
    : outcome unit :=
  execute conn (NACK_MESSAGE conn queue_name job_id).

(** ** extend_deadline *)

(** [message_for_update] is read by two scalar subqueries, one for [id] and
    one for [queue_id]; both see the same rows.  The UPDATE compares
    [pgjobq.messages.id] alone with the first. *)
Definition EXTEND_ACK_DEADLINE (conn : connection) (p1 : string) (p2 : uuid)
    : statement timestamptz :=
  match scalar_subquery (map queues.id (queues_named (db conn) p1)) with
  | inl e => inl e
  | inr queue_id =>
      let rows := pgjobq_messages (db conn) in
      let message_for_update :=
        filter (fun m => negb (locked conn m)) (filter (is_job queue_id p2) rows) in
      match scalar_subquery message_for_update with
      | inl e => inl e
      | inr None => inr (Executed (db conn) [] [])
      | inr (Some mfu) =>
          match scalar_subquery
                  (map queues.ack_deadline
                     (filter (fun q => queues.id q =? messages.queue_id mfu)
                        (pgjobq_queues (db conn)))) with
          | inl e => inl e
          | inr None => inl not_null_violation
          | inr (Some ack_deadline) =>
              let hit m := N.eqb (messages.id m) (messages.id mfu) in
              inr (Executed
                     (with_messages (db conn)
                        (map (fun m =>
                                if hit m
                                then messages.set_available_at (now conn + ack_deadline) m
                                else m)
                           rows))
                     []
                     (map (fun _ => now conn + ack_deadline) (filter hit rows)))
          end
      end
  end.

Definition extend_ack_deadline (conn : connection) (queue_name : string)
    (job_id : uuid) : outcome (option timestamptz) :=
  fetchval conn (EXTEND_ACK_DEADLINE conn queue_name job_id).

(** ** The data model's constraints *)

Definition unique_queue_names (d : database) : Prop :=
  NoDup (map queues.name (pgjobq_queues d)).

Definition unique_queue_ids (d : database) : Prop :=
  NoDup (map queues.id (pgjobq_queues d)).

Definition unique_message_ids (d : database) : Prop :=
  NoDup (map messages.id (pgjobq_messages d)).

Definition attempts_nonneg (d : database) : Prop :=
  Forall (fun m => 0 <= messages.delivery_attempts_remaining m) (pgjobq_messages d).

(** A queue of that name is in the table. *)
Definition queue_exists (d : database) (queue_name : string) : Prop :=
  exists q, In q (pgjobq_queues d) /\ queues.name q = queue_name.

(** The message row of a job: in the queue of that name, with that id. *)
Definition job_row (d : database) (queue_name : string) (job_id : uuid)
    (m : messages.row) : Prop :=
  In m (pgjobq_messages d) /\ messages.id m = job_id /\
  exists q, In q (pgjobq_queues d) /\ queues.name q = queue_name /\
            messages.queue_id m = queues.id q.

(** Deliverability in the words of the specification: attempts remain, the
    row has not expired, and its [available_at] is not after [now]. *)
Definition deliverable (t : timestamptz) (m : messages.row) : Prop :=
  messages.delivery_attempts_remaining m > 0 /\
  messages.expires_at m > t /\
  messages.available_at m <= t.


(** [l1] is a subsequence of [l2]. *)
Fixpoint subsequence (l1 l2 : list uuid) : bool :=
  match l1, l2 with
  | [], _ => true
  | _ :: _, [] => false
  | x :: r1, y :: r2 => if N.eqb x y then subsequence r1 r2 else subsequence l1 r2
  end.


(** The order each of the two poll statements scans in. *)
Definition scan_order (fifo : bool) : list messages.row -> list messages.row :=
  if fifo then ORDER_BY_id else fun rows => rows.

(** ** Sequences of calls *)

Definition attempts_positive (d : database) : Prop :=
  Forall (fun q => queues.max_delivery_attempts q > 0) (pgjobq_queues d).

Inductive call :=
| Publish (queue_name : string) (message_id : uuid) (message_body : bytea)
    (delay : option interval)
| Poll (queue_name : string) (batch_size : nat) (fifo : bool)
| Ack (queue_name : string) (job_id : uuid)
| Nack (queue_name : string) (job_id : uuid)
| ExtendDeadline (queue_name : string) (job_id : uuid).

(** The tables a call leaves behind. *)
Definition perform (conn : connection) (c : call) : database :=
  match c with
  | Publish queue_name message_id message_body delay =>
      tables (publish_messages conn queue_name message_id message_body delay)
  | Poll queue_name batch_size fifo =>
      tables (poll_for_messages conn queue_name batch_size fifo)
  | Ack queue_name job_id => tables (ack_message conn queue_name job_id)
  | Nack queue_name job_id => tables (nack_message conn queue_name job_id)
  | ExtendDeadline queue_name job_id =>
      tables (extend_ack_deadline conn queue_name job_id)
  end.

(** A call together with the instant it runs at and the rows locked
    elsewhere while it runs. *)
Record step := {
  at_time : timestamptz;
  locked_then : messages.row -> bool;
  does : call
}.

Definition after (d : database) (s : step) : database :=
  perform {| db := d; now := at_time s; locked := locked_then s |} (does s).

Definition run (d : database) (trace : list step) : database :=
  fold_left after trace d.

(** A publish brings an id no row has yet. *)
Definition fresh (d : database) (c : call) : Prop :=
  match c with
  | Publish _ message_id _ _ => ~ In message_id (map messages.id (pgjobq_messages d))
  | _ => True
  end.

Fixpoint publishes_fresh_ids (d : database) (trace : list step) : Prop :=
  match trace with
  | [] => True
  | s :: rest => fresh d (does s) /\ publishes_fresh_ids (after d s) rest
  end.

Definition consistent (d : database) : Prop :=
  unique_queue_names d /\ attempts_positive d /\
  unique_message_ids d /\ attempts_nonneg d.

(** [d'] has the rows of [d], in place, each with at most another
    [available_at]. *)
Definition rescheduled (d d' : database) : Prop :=
  pgjobq_queues d' = pgjobq_queues d /\
  exists g,
    pgjobq_messages d' = map g (pgjobq_messages d) /\
    forall m, messages.id (g m) = messages.id m /\
              messages.queue_id (g m) = messages.queue_id m /\
              messages.delivery_attempts_remaining (g m)
              = messages.delivery_attempts_remaining m.

(** ** What a sequence of calls delivers *)


(** Whether a call hands the job out: a poll whose result holds its id. *)
Definition delivers (conn : connection) (c : call) (job_id : uuid) : bool :=
  match c with
  | Poll queue_name batch_size fifo =>
      match result (poll_for_messages conn queue_name batch_size fifo) with
      | inr rows => existsb (fun r => N.eqb (Message.id r) job_id) rows
      | inl _ => false
      end
  | _ => false
  end.

(** How many calls of a sequence hand the job out. *)
Fixpoint deliveries (d : database) (trace : list step) (job_id : uuid) : nat :=
  match trace with
  | [] => O
  | s :: rest =>
      ((if delivers {| db := d; now := at_time s; locked := locked_then s |}
             (does s) job_id
        then 1 else 0)
       + deliveries (after d s) rest job_id)%nat
  end.

(** The counter of the job's row, zero when the table has no such row. *)
Definition attempts_left (d : database) (job_id : uuid) : Z :=
  match find (fun m => N.eqb (messages.id m) job_id) (pgjobq_messages d) with
  | Some m => messages.delivery_attempts_remaining m
  | None => 0
  end.

Definition publishes (c : call) (job_id : uuid) : bool :=
  match c with
  | Publish _ message_id _ _ => N.eqb message_id job_id
  | _ => false
  end.

(** The value of a hexadecimal digit of [hex_digit]. *)
Definition hex_value (c : ascii) : N :=
  match c with
  | "0" => 0 | "1" => 1 | "2" => 2 | "3" => 3 | "4" => 4 | "5" => 5
  | "6" => 6 | "7" => 7 | "8" => 8 | "9" => 9 | "a" => 10 | "b" => 11
  | "c" => 12 | "d" => 13 | "e" => 14 | _ => 15
  end%char%N.

(** ** A small database *)

Module Scenario.
(** Two queues: id, name, ack_deadline, retention_period,
    max_delivery_attempts. *)
Definition jobs : queues.row := queues.mk 1 "jobs" 10 1000 3.
Definition mail : queues.row := queues.mk 2 "mail" 20 1000 5.

Definition no_messages : database :=
  {| pgjobq_queues := [jobs; mail]; pgjobq_messages := [] |}.

(** Tables [d] at instant [t], with no row locked elsewhere. *)
Definition connect (d : database) (t : timestamptz) : connection :=
  {| db := d; now := t; locked := fun _ => false |}.

(** The row of a publish to "jobs" at instant 0 with uuid 2, and of one at
    instant 1 with uuid 1. *)
Definition first_job : messages.row := messages.mk 1 2%N 1000 3 0 [].
Definition second_job : messages.row := messages.mk 1 1%N 1001 3 1 [].

Definition two_jobs : database :=
  {| pgjobq_queues := [jobs; mail]; pgjobq_messages := [first_job; second_job] |}.


(** publish, poll, nack, extend_deadline, poll, ack. *)
Definition session : list step :=
  [ {| at_time := 0; locked_then := fun _ => false;
       does := Publish "jobs" 2%N [] None |};
    {| at_time := 5; locked_then := fun _ => false;
       does := Poll "jobs" 1 true |};
    {| at_time := 6; locked_then := fun _ => false;
       does := Nack "jobs" 2%N |};
    {| at_time := 7; locked_then := fun _ => false;
       does := ExtendDeadline "jobs" 2%N |};
    {| at_time := 30; locked_then := fun _ => false;
       does := Poll "jobs" 1 false |};
    {| at_time := 31; locked_then := fun _ => false;
       does := Ack "jobs" 2%N |} ].
End Scenario.

(** ** A second small database *)

Module Workload.
(** A job on "jobs" and a job on "mail", both published at instant 0. *)
Definition mail_job : messages.row := messages.mk 2 3%N 1000 5 0 [].

Definition two_queues : database :=
  {| pgjobq_queues := [Scenario.jobs; Scenario.mail];
     pgjobq_messages := [Scenario.first_job; mail_job] |}.

Definition at_instant (t : timestamptz) (c : call) : step :=
  {| at_time := t; locked_then := fun _ => false; does := c |}.

(** Four rounds of poll and nack on "jobs"; the queue allows three
    attempts. *)
Definition retries : list step :=
  [ at_instant 5 (Poll "jobs" 1 false); at_instant 6 (Nack "jobs" 2%N);
    at_instant 7 (Poll "jobs" 1 false); at_instant 8 (Nack "jobs" 2%N);
    at_instant 9 (Poll "jobs" 1 false); at_instant 10 (Nack "jobs" 2%N);
    at_instant 11 (Poll "jobs" 1 false); at_instant 12 (Nack "jobs" 2%N) ].

(** The same uuid published to "jobs" and to "mail"; "jobs" allows three
    attempts and "mail" five. *)
Definition same_uuid : list step :=
  [ at_instant 0 (Publish "jobs" 9%N [] None);
    at_instant 0 (Publish "mail" 9%N [] None) ].

(** Polls of "mail", each one after the deadline the one before it set. *)
Definition mail_polls : list step :=
  [ at_instant 1 (Poll "mail" 1 false);
    at_instant 22 (Poll "mail" 1 false);
    at_instant 43 (Poll "mail" 1 false);
    at_instant 64 (Poll "mail" 1 false) ].
End Workload.

(** Closed goals about explicit tables. *)
Ltac distinct :=
  repeat (apply NoDup_cons; [simpl; intuition discriminate|]); apply NoDup_nil.

Ltac each_row := repeat (apply Forall_cons; [simpl; lia|]); apply Forall_nil.

(** * Lists of rows with a key *)

Lemma with_messages_same (d : database) : with_messages d (pgjobq_messages d) = d.
Proof. now destruct d. Qed.

Lemma map_id_ext {A : Type} (f : A -> A) (l : list A) :
  (forall x, In x l -> f x = x) -> map f l = l.
Proof.
  induction l as [|a l IH]; simpl; intros H; [reflexivity|].
  rewrite H by now left. f_equal. apply IH. intros x Hx. apply H. now right.
Qed.

Lemma filter_all {A : Type} (p : A -> bool) (l : list A) :
  (forall x, In x l -> p x = true) -> filter p l = l.
Proof.
  induction l as [|a l IH]; simpl; intros H; [reflexivity|].
  rewrite H by now left. f_equal. apply IH. intros x Hx. apply H. now right.
Qed.

Lemma filter_none {A : Type} (p : A -> bool) (l : list A) :
  (forall x, In x l -> p x = false) -> filter p l = [].
Proof.
  induction l as [|a l IH]; simpl; intros H; [reflexivity|].
  rewrite H by now left. apply IH. intros x Hx. apply H. now right.
Qed.

Section Keys.
Context {A K : Type} (key : A -> K) (eqb : K -> K -> bool).
Hypothesis eqb_eq : forall x y, eqb x y = true <-> x = y.

Lemma filter_key_absent (l : list A) (k : K) :
  ~ In k (map key l) -> filter (fun y => eqb (key y) k) l = [].
Proof.
  induction l as [|a l IH]; simpl; intros Hn; [reflexivity|].
  destruct (eqb (key a) k) eqn:E.
  - apply eqb_eq in E. exfalso. apply Hn. now left.
  - apply IH. intros H. apply Hn. now right.
Qed.

Lemma filter_key_unique (l : list A) (x : A) :
  NoDup (map key l) -> In x l ->
  filter (fun y => eqb (key y) (key x)) l = [x].
Proof.
  induction l as [|a l IH]; simpl; intros Hnd Hin; [contradiction|].
  inversion Hnd as [|? ? Hnotin Hnd']; subst.
  destruct Hin as [->|Hin].
  - replace (eqb (key x) (key x)) with true
      by (symmetry; now apply eqb_eq).
    f_equal. now apply filter_key_absent.
  - destruct (eqb (key a) (key x)) eqn:E.
    + apply eqb_eq in E. exfalso. apply Hnotin. rewrite E. now apply in_map.
    + now apply IH.
Qed.


Lemma NoDup_map_filter (p : A -> bool) (l : list A) :
  NoDup (map key l) -> NoDup (map key (filter p l)).
Proof.
  induction l as [|a l IH]; simpl; intros Hnd; [constructor|].
  inversion Hnd as [|? ? Hnotin Hnd']; subst.
  destruct (p a); simpl; [constructor|]; auto.
  intros Hin. apply Hnotin.
  apply in_map_iff in Hin. destruct Hin as (y & Hy & Hin).
  apply filter_In in Hin. apply in_map_iff. exists y. tauto.
Qed.

Lemma NoDup_map_firstn (n : nat) (l : list A) :
  NoDup (map key l) -> NoDup (map key (firstn n l)).
Proof.
  intros Hnd. rewrite <- (firstn_skipn n l), map_app in Hnd.
  now apply NoDup_app_remove_r in Hnd.
Qed.

End Keys.

(** * Queues by name *)

Lemma queues_named_In (d : database) (queue_name : string) (q : queues.row) :
  In q (queues_named d queue_name) <->
  In q (pgjobq_queues d) /\ queues.name q = queue_name.
Proof.
  unfold queues_named. rewrite filter_In, String.eqb_eq. tauto.
Qed.

Lemma queues_named_missing (d : database) (queue_name : string) :
  ~ queue_exists d queue_name -> queues_named d queue_name = [].
Proof.
  intros Hno. apply filter_none. intros q Hq.
  apply String.eqb_neq. intros Hn. apply Hno. now exists q.
Qed.

Lemma queues_named_unique (d : database) (q : queues.row) :
  unique_queue_names d -> In q (pgjobq_queues d) ->
  queues_named d (queues.name q) = [q].
Proof.
  intros Hnd Hin. unfold queues_named.
  now apply (filter_key_unique queues.name String.eqb String.eqb_eq).
Qed.

Lemma queues_named_cases (d : database) (queue_name : string) :
  unique_queue_names d ->
  (~ queue_exists d queue_name /\ queues_named d queue_name = []) \/
  (exists q, In q (pgjobq_queues d) /\ queues.name q = queue_name /\
             queues_named d queue_name = [q]).
Proof.
  intros Hnd. destruct (queues_named d queue_name) as [|q l] eqn:E.
  - left. split; [|reflexivity]. intros (q & Hin & Hn).
    assert (H : In q (queues_named d queue_name)) by now apply queues_named_In.
    now rewrite E in H.
  - right. exists q.
    assert (H : In q (queues_named d queue_name)) by (rewrite E; now left).
    apply queues_named_In in H. destruct H as [Hin Hn].
    repeat split; auto. rewrite <- E, <- Hn. now apply queues_named_unique.
Qed.

(** * ORDER BY id *)

Lemma insert_by_id_perm (m : messages.row) (l : list messages.row) :
  Permutation (insert_by_id m l) (m :: l).
Proof.
  induction l as [|x r IH]; simpl; [reflexivity|].
  destruct (messages.id m <=? messages.id x)%N; [reflexivity|].
  rewrite IH. apply perm_swap.
Qed.

Lemma ORDER_BY_id_perm (l : list messages.row) : Permutation (ORDER_BY_id l) l.
Proof.
  induction l as [|x r IH]; simpl; [reflexivity|].
  rewrite insert_by_id_perm. now apply perm_skip.
Qed.





(** * The rows a poll selects *)

Lemma poll_where_true (conn : connection) (qid : Z) (m : messages.row) :
  poll_where conn (Some qid) m = true <->
  messages.delivery_attempts_remaining m <> 0 /\
  messages.expires_at m > now conn /\
  messages.available_at m < now conn /\
  messages.queue_id m = qid.
Proof.
  unfold poll_where, eq_nullable.
  rewrite !andb_true_iff, negb_true_iff, Z.eqb_neq, Z.gtb_ltb, !Z.ltb_lt, Z.eqb_eq.
  intuition lia.
Qed.

Lemma unique_id_eq (d : database) (a b : messages.row) :
  unique_message_ids d ->
  In a (pgjobq_messages d) -> In b (pgjobq_messages d) ->
  messages.id a = messages.id b -> a = b.
Proof.
  intros Hnd Ha Hb Hid.
  pose proof (filter_key_unique messages.id N.eqb N.eqb_eq _ b Hnd Hb) as Hf.
  assert (Hin : In a (filter (fun y => N.eqb (messages.id y) (messages.id b))
                        (pgjobq_messages d))).
  { apply filter_In. split; [exact Ha|]. now apply N.eqb_eq. }
  rewrite Hf in Hin. simpl in Hin. intuition congruence.
Qed.

Section Selected.
Variable order_by : list messages.row -> list messages.row.
Hypothesis order_by_perm : forall l, Permutation (order_by l) l.
Variables (conn : connection) (q : queues.row) (n : nat).


Lemma selected_rows_In (m : messages.row) :
  In m (selected_rows order_by conn q n) ->
  In m (pgjobq_messages (db conn)) /\
  poll_where conn (Some (queues.id q)) m = true /\
  locked conn m = false.
Proof.
  unfold selected_rows. intros H.
  apply (In_nth_error (firstn n _)) in H. destruct H as [i H].
  assert (Hin : In m (filter (fun m => negb (locked conn m))
                  (order_by (filter (poll_where conn (Some (queues.id q)))
                     (pgjobq_messages (db conn)))))).
  { rewrite <- (firstn_skipn n). apply in_or_app. left.
    eapply nth_error_In; eauto. }
  apply filter_In in Hin. destruct Hin as [Hin Hl].
  apply (Permutation_in _ (order_by_perm _)) in Hin.
  apply filter_In in Hin. rewrite negb_true_iff in Hl. tauto.
Qed.


Lemma selected_rows_NoDup :
  unique_message_ids (db conn) ->
  NoDup (map messages.id (selected_rows order_by conn q n)).
Proof.
  intros Hnd. unfold selected_rows.
  apply NoDup_map_firstn, NoDup_map_filter.
  eapply Permutation_NoDup.
  - apply Permutation_map. symmetry. apply order_by_perm.
  - now apply NoDup_map_filter.
Qed.

Lemma selected_rows_joins (m : messages.row) :
  unique_message_ids (db conn) -> In m (pgjobq_messages (db conn)) ->
  existsb (N.eqb (messages.id m))
    (map messages.id (selected_rows order_by conn q n)) = true <->
  In m (selected_rows order_by conn q n).
Proof.
  intros Hnd Hin. rewrite existsb_exists. split.
  - intros (k & Hk & E). apply N.eqb_eq in E. subst k.
    apply in_map_iff in Hk. destruct Hk as (s & Hs & Hsel).
    assert (s = m); [|now subst].
    apply (unique_id_eq (db conn)); auto. now apply selected_rows_In.
  - intros Hsel. exists (messages.id m). split; [now apply in_map|].
    now apply N.eqb_eq.
Qed.

(** With unique message ids the rows the UPDATE joins are the selected rows
    and no other. *)
Lemma selected_rows_joined :
  unique_message_ids (db conn) ->
  Permutation
    (filter (fun m =>
               existsb (N.eqb (messages.id m))
                 (map messages.id (selected_rows order_by conn q n)))
       (pgjobq_messages (db conn)))
    (selected_rows order_by conn q n).
Proof.
  intros Hnd. apply NoDup_Permutation.
  - apply NoDup_filter. now apply NoDup_map_inv in Hnd.
  - pose proof (selected_rows_NoDup Hnd) as H. now apply NoDup_map_inv in H.
  - intros m. rewrite filter_In. split.
    + intros [Hin Hj]. now apply selected_rows_joins.
    + intros Hs. pose proof (selected_rows_In m Hs) as (Hin & _).
      split; [exact Hin|]. now apply selected_rows_joins.
Qed.

Lemma poll_statement (queue_name : string) :
  queues_named (db conn) queue_name = [q] ->
  _POLL_FOR_MESSAGES order_by conn queue_name n =
  inr (Executed
         (with_messages (db conn)
            (map (fun m =>
                    if existsb (N.eqb (messages.id m))
                         (map messages.id (selected_rows order_by conn q n))
                    then poll_set conn q m else m)
               (pgjobq_messages (db conn))))
         []
         (map (fun m => poll_returning (poll_set conn q m))
            (filter (fun m =>
                       existsb (N.eqb (messages.id m))
                         (map messages.id (selected_rows order_by conn q n)))
               (pgjobq_messages (db conn))))).
Proof.
  intros Hq. unfold _POLL_FOR_MESSAGES. now rewrite Hq.
Qed.
End Selected.

(** * poll *)

Lemma scan_order_perm (fifo : bool) (l : list messages.row) :
  Permutation (scan_order fifo l) l.
Proof. destruct fifo; simpl; [apply ORDER_BY_id_perm|reflexivity]. Qed.

Lemma poll_for_messages_query (conn : connection) (queue_name : string)
    (batch_size : nat) (fifo : bool) :
  poll_for_messages conn queue_name batch_size fifo =
  fetch conn (_POLL_FOR_MESSAGES (scan_order fifo) conn queue_name batch_size).
Proof. now destruct fifo. Qed.

(** What a poll does, by whether the queue is there: the records it returns
    are those of the selected rows, in some order. *)
Lemma poll_for_messages_outcome (conn : connection) (queue_name : string)
    (batch_size : nat) (fifo : bool) :
  unique_queue_names (db conn) -> unique_message_ids (db conn) ->
  (~ queue_exists (db conn) queue_name /\
   poll_for_messages conn queue_name batch_size fifo = Outcome (db conn) [] (inr []))
  \/
  (exists q rows,
     In q (pgjobq_queues (db conn)) /\ queues.name q = queue_name /\
     poll_for_messages conn queue_name batch_size fifo =
     Outcome
       (with_messages (db conn)
          (map (fun m =>
                  if existsb (N.eqb (messages.id m))
                       (map messages.id
                          (selected_rows (scan_order fifo) conn q batch_size))
                  then poll_set conn q m else m)
             (pgjobq_messages (db conn))))
       []
       (inr rows) /\
     Permutation rows
       (map (fun m => poll_returning (poll_set conn q m))
          (selected_rows (scan_order fifo) conn q batch_size))).
Proof.
  intros Hqn Hid. rewrite poll_for_messages_query.
  destruct (queues_named_cases _ queue_name Hqn) as [[Hno E]|(q & Hin & Hn & E)].
  - left. split; [exact Hno|]. unfold _POLL_FOR_MESSAGES. now rewrite E.
  - right. exists q. eexists. split; [exact Hin|]. split; [exact Hn|].
    rewrite (poll_statement (scan_order fifo) conn q batch_size queue_name E).
    split; [reflexivity|].
    apply Permutation_map.
    now apply (selected_rows_joined _ (scan_order_perm fifo)).
Qed.

Lemma attempts_remain (d : database) (m : messages.row) :
  attempts_nonneg d -> In m (pgjobq_messages d) ->
  messages.delivery_attempts_remaining m <> 0 ->
  messages.delivery_attempts_remaining m > 0.
Proof.
  unfold attempts_nonneg. rewrite Forall_forall. intros H Hin Hne.
  specialize (H m Hin). lia.
Qed.


Lemma Forall2_map_self {A : Type} (R : A -> A -> Prop) (f : A -> A) (l : list A) :
  (forall x, In x l -> R x (f x)) -> Forall2 R l (map f l).
Proof.
  induction l as [|a l IH]; simpl; intros H; constructor.
  - apply H. now left.
  - apply IH. intros x Hx. apply H. now right.
Qed.



(** * FIFO *)



(** * ack *)


Lemma queue_id_found (d : database) (queue_name : string) :
  unique_queue_names d ->
  exists queue_id,
    scalar_subquery (map queues.id (queues_named d queue_name)) = inr queue_id /\
    (queue_id <> None <-> queue_exists d queue_name) /\
    forall job_id m,
      In m (pgjobq_messages d) ->
      (is_job queue_id job_id m = true <-> job_row d queue_name job_id m).
Proof.
  intros Hqn.
  destruct (queues_named_cases d queue_name Hqn) as [[Hno E]|(q & Hq & Hname & E)];
    rewrite E; simpl.
  - exists None. split; [reflexivity|]. split; [tauto|].
    intros job_id m Hin. unfold is_job. simpl.
    split.
    + discriminate.
    + intros (_ & _ & q & Hq & Hname & _). exfalso. apply Hno. now exists q.
  - exists (Some (queues.id q)). split; [reflexivity|]. split.
    { split; [intros _; now exists q|discriminate]. }
    intros job_id m Hin.
    unfold is_job, job_row. simpl. rewrite andb_true_iff, N.eqb_eq, Z.eqb_eq. split.
    + intros [Hm Hj]. repeat split; auto. exists q. tauto.
    + intros (_ & Hj & q' & Hq' & Hname' & Hm).
      assert (H : In q' (queues_named d queue_name))
        by (apply queues_named_In; tauto).
      rewrite E in H. simpl in H. intuition congruence.
Qed.

Lemma job_notification_cases (queue_id : option Z) (n : notification) :
  (queue_id <> None -> job_notification queue_id n = [n]) /\
  (queue_id = None -> job_notification queue_id n = []).
Proof. destruct queue_id; simpl; split; congruence. Qed.

(** C4, amended.  An ack raises nothing, deletes the job's row when it is in
    the table and leaves every other row where it was, and leaves the table
    as it is when the row is not there.  When a queue of that name is in the
    table it emits one [pgjobq.job_completed] notification whose payload is
    the queue name, a comma and the job id, whether or not a row was deleted;
    when no queue has that name it emits none.  So no row is deleted without
    the notification. *)
Theorem ack_deletes_row_and_notifies_if_queue (conn : connection)
    (queue_name : string) (job_id : uuid) :
  unique_queue_names (db conn) ->
  result (ack_message conn queue_name job_id) = inr tt /\
  (queue_exists (db conn) queue_name ->
   sent (ack_message conn queue_name job_id)
   = [{| channel := "pgjobq.job_completed";
         payload := (queue_name ++ "," ++ uuid_text job_id)%string |}]) /\
  (~ queue_exists (db conn) queue_name ->
   sent (ack_message conn queue_name job_id) = []) /\
  ((exists m, job_row (db conn) queue_name job_id m) ->
   sent (ack_message conn queue_name job_id)
   = [{| channel := "pgjobq.job_completed";
         payload := (queue_name ++ "," ++ uuid_text job_id)%string |}]) /\
  pgjobq_queues (tables (ack_message conn queue_name job_id))
  = pgjobq_queues (db conn) /\
  (exists keep,
     pgjobq_messages (tables (ack_message conn queue_name job_id))
     = filter keep (pgjobq_messages (db conn)) /\
     forall m, In m (pgjobq_messages (db conn)) ->
               (keep m = false <-> job_row (db conn) queue_name job_id m)) /\
  ((forall m, ~ job_row (db conn) queue_name job_id m) ->
   tables (ack_message conn queue_name job_id) = db conn).
Proof.
  intros Hqn. unfold ack_message, ACK_MESSAGE.
  destruct (queue_id_found _ queue_name Hqn) as (queue_id & -> & Hex & Hjob).
  cbn [execute result sent tables notified db_after pgjobq_queues with_messages].
  split; [reflexivity|]. split; [|split; [|split; [|split; [|split]]]].
  - intros Hq. apply job_notification_cases. now apply Hex.
  - intros Hq. apply job_notification_cases.
    destruct queue_id; [|reflexivity]. exfalso. apply Hq, Hex. discriminate.
  - intros (m & _ & _ & q & Hq & Hname & _).
    apply job_notification_cases. apply Hex. now exists q.
  - reflexivity.
  - exists (fun m => negb (is_job queue_id job_id m)). split; [reflexivity|].
    intros m Hin. rewrite negb_false_iff. now apply Hjob.
  - intros Hno. simpl. rewrite filter_all; [apply with_messages_same|].
    intros m Hin. apply negb_true_iff.
    destruct (is_job queue_id job_id m) eqn:E; [|reflexivity].
    apply Hjob in E; auto. now apply Hno in E.
Qed.

(** * nack *)

(** C6.  A nack of a row that is in the table rewrites that row with
    [available_at] set to [now] and every other field as it was, leaves
    every other row and the queue table as they were, and from any later
    instant on the row passes the poll's test as long as attempts remain and
    it has not expired. *)
Theorem nack_sets_available_at_now (conn : connection) (queue_name : string)
    (job_id : uuid) (m : messages.row) :
  unique_queue_names (db conn) ->
  job_row (db conn) queue_name job_id m ->
  result (nack_message conn queue_name job_id) = inr tt /\
  pgjobq_queues (tables (nack_message conn queue_name job_id))
  = pgjobq_queues (db conn) /\
  In (messages.mk (messages.queue_id m) (messages.id m) (messages.expires_at m)
        (messages.delivery_attempts_remaining m) (now conn) (messages.body m))
     (pgjobq_messages (tables (nack_message conn queue_name job_id))) /\
  Forall2
    (fun x x' =>
       (job_row (db conn) queue_name job_id x ->
        x' = messages.mk (messages.queue_id x) (messages.id x)
               (messages.expires_at x) (messages.delivery_attempts_remaining x)
               (now conn) (messages.body x) /\
        forall later : connection,
          now later > now conn ->
          messages.delivery_attempts_remaining x > 0 ->
          messages.expires_at x > now later ->
          poll_where later (Some (messages.queue_id x)) x' = true /\
          deliverable (now later) x') /\
       (~ job_row (db conn) queue_name job_id x -> x' = x))
    (pgjobq_messages (db conn))
    (pgjobq_messages (tables (nack_message conn queue_name job_id))).
Proof.
  intros Hqn Hm. unfold nack_message, NACK_MESSAGE.
  destruct (queue_id_found _ queue_name Hqn) as (queue_id & -> & _ & Hjob). simpl.
  split; [reflexivity|]. split; [reflexivity|]. split.
  - apply in_map_iff. exists m. destruct Hm as (Hin & Hid & Hq).
    split; [|exact Hin].
    replace (is_job queue_id job_id m) with true; [reflexivity|].
    symmetry. apply Hjob; auto. now split.
  - apply Forall2_map_self. intros x Hin.
    destruct (is_job queue_id job_id x) eqn:E.
    + split; [|intros Hno; apply Hjob in E; tauto].
      intros _. split; [reflexivity|]. intros later Ht Hd He. split.
      * apply poll_where_true. simpl. repeat split; lia.
      * unfold deliverable. simpl. lia.
    + split; [|reflexivity]. intros Hx. apply Hjob in Hx; auto. congruence.
Qed.

(** * publish *)

Lemma publish_messages_missing (conn : connection) (queue_name : string)
    (message_id : uuid) (message_body : bytea) (delay : option interval) :
  ~ queue_exists (db conn) queue_name ->
  publish_messages conn queue_name message_id message_body delay =
  Outcome (db conn) []
    (inl (LookupError ("Queue not found: there is no queue named " ++ queue_name)%string)).
Proof.
  intros Hno. unfold publish_messages, PUBLISH_MESSAGES.
  rewrite (queues_named_missing _ _ Hno). simpl.
  now rewrite with_messages_same.
Qed.

Lemma publish_messages_found (conn : connection) (queue_name : string)
    (message_id : uuid) (message_body : bytea) (delay : option interval) :
  queue_exists (db conn) queue_name ->
  forall msg,
    result (publish_messages conn queue_name message_id message_body delay)
    <> inl (LookupError msg).
Proof.
  intros (q & Hq & Hname) msg. unfold publish_messages, PUBLISH_MESSAGES.
  assert (H : In q (queues_named (db conn) queue_name))
    by (apply queues_named_In; tauto).
  destruct (queues_named (db conn) queue_name) as [|q0 rest]; [contradiction|].
  destruct (insert_published conn (q0 :: rest) message_id message_body delay
              (pgjobq_messages (db conn))); simpl; discriminate.
Qed.

(** C5.  A publish raises the queue-not-found error exactly when no queue of
    that name is in the table, and then the tables are as they were and no
    notification has been emitted. *)
Theorem publish_raises_iff_queue_missing (conn : connection) (queue_name : string)
    (message_id : uuid) (message_body : bytea) (delay : option interval) :
  ((exists msg,
      result (publish_messages conn queue_name message_id message_body delay)
      = inl (LookupError msg))
   <-> ~ queue_exists (db conn) queue_name) /\
  (~ queue_exists (db conn) queue_name ->
   result (publish_messages conn queue_name message_id message_body delay)
   = inl (LookupError
            ("Queue not found: there is no queue named " ++ queue_name)%string) /\
   tables (publish_messages conn queue_name message_id message_body delay) = db conn /\
   sent (publish_messages conn queue_name message_id message_body delay) = []).
Proof.
  split; [split|].
  - intros [msg E] Hex.
    now apply (publish_messages_found _ _ message_id message_body delay Hex msg).
  - intros Hno. rewrite publish_messages_missing by exact Hno. simpl. eauto.
  - intros Hno. rewrite publish_messages_missing by exact Hno. now simpl.
Qed.

(** No row of the table has the key the publish is about to insert. *)
Lemma fresh_key (rows : list messages.row) (r : messages.row) :
  (forall m, In m rows -> messages.queue_id m = messages.queue_id r ->
             messages.id m <> messages.id r) ->
  existsb (same_key r) rows = false.
Proof.
  intros Hfresh. destruct (existsb (same_key r) rows) eqn:E; [|reflexivity].
  apply existsb_exists in E. destruct E as (m & Hm & Hk).
  unfold same_key in Hk. apply andb_true_iff in Hk. destruct Hk as [Hq Hi].
  apply Z.eqb_eq in Hq. apply N.eqb_eq in Hi.
  exfalso. now apply (Hfresh m Hm).
Qed.

Lemma publish_messages_inserted (conn : connection) (q : queues.row)
    (message_id : uuid) (message_body : bytea) (delay : option interval) :
  unique_queue_names (db conn) ->
  In q (pgjobq_queues (db conn)) ->
  (forall m, In m (pgjobq_messages (db conn)) ->
             messages.queue_id m = queues.id q -> messages.id m <> message_id) ->
  timestamptz_in_range (now conn + queues.retention_period q) = true ->
  timestamptz_in_range (now conn + COALESCE delay 0) = true ->
  publish_messages conn (queues.name q) message_id message_body delay =
  Outcome
    (with_messages (db conn)
       (pgjobq_messages (db conn) ++
        [messages.mk (queues.id q) message_id
           (now conn + queues.retention_period q)
           (queues.max_delivery_attempts q)
           (now conn + COALESCE delay 0)
           message_body]))
    [pg_notify "pgjobq.new_job" (queues.name q)]
    (inr tt).
Proof.
  intros Hqn Hq Hfresh He Ha. unfold publish_messages, PUBLISH_MESSAGES.
  rewrite (queues_named_unique _ q Hqn Hq).
  unfold insert_published, published_row, timestamptz_pl_interval.
  rewrite He, Ha. unfold INSERT_INTO_messages.
  rewrite fresh_key; [reflexivity|]. simpl. intros m Hm Hqid Hmid.
  now apply (Hfresh m Hm).
Qed.

(** The three ways a publish ends: no queue of that name; an error of the
    INSERT, which leaves no row and no notification; or one row appended. *)
Lemma publish_messages_outcome (conn : connection) (queue_name : string)
    (message_id : uuid) (message_body : bytea) (delay : option interval) :
  unique_queue_names (db conn) ->
  (~ queue_exists (db conn) queue_name /\
   publish_messages conn queue_name message_id message_body delay =
   Outcome (db conn) []
     (inl (LookupError
             ("Queue not found: there is no queue named " ++ queue_name)%string)))
  \/
  (exists e,
     queue_exists (db conn) queue_name /\
     publish_messages conn queue_name message_id message_body delay =
     Outcome (db conn) [] (inl (PostgresError e)))
  \/
  (exists q,
     In q (pgjobq_queues (db conn)) /\ queues.name q = queue_name /\
     (forall m, In m (pgjobq_messages (db conn)) ->
                messages.queue_id m = queues.id q -> messages.id m <> message_id) /\
     publish_messages conn queue_name message_id message_body delay =
     Outcome
       (with_messages (db conn)
          (pgjobq_messages (db conn) ++
           [messages.mk (queues.id q) message_id
              (now conn + queues.retention_period q)
              (queues.max_delivery_attempts q)
              (now conn + COALESCE delay 0)
              message_body]))
       [pg_notify "pgjobq.new_job" queue_name]
       (inr tt)).
Proof.
  intros Hqn.
  destruct (queues_named_cases _ queue_name Hqn) as [[Hno E]|(q & Hq & Hname & E)].
  - left. split; [exact Hno|]. now apply publish_messages_missing.
  - right. unfold publish_messages, PUBLISH_MESSAGES. rewrite E.
    unfold insert_published, published_row, timestamptz_pl_interval.
    destruct (timestamptz_in_range (now conn + queues.retention_period q));
      [|left; exists datetime_field_overflow; split; [now exists q|reflexivity]].
    destruct (timestamptz_in_range (now conn + COALESCE delay 0));
      [|left; exists datetime_field_overflow; split; [now exists q|reflexivity]].
    unfold INSERT_INTO_messages.
    match goal with |- context [existsb ?f ?l] => destruct (existsb f l) eqn:Ek end.
    + left. exists unique_violation. split; [now exists q|reflexivity].
    + right. exists q. split; [exact Hq|]. split; [exact Hname|]. split; [|reflexivity].
      intros m Hm Hqid Hmid.
      assert (Hex : existsb
                      (same_key
                         (messages.mk (queues.id q) message_id
                            (now conn + queues.retention_period q)
                            (queues.max_delivery_attempts q)
                            (now conn + COALESCE delay 0) message_body))
                      (pgjobq_messages (db conn)) = true).
      { apply existsb_exists. exists m. split; [exact Hm|].
        unfold same_key. simpl. rewrite Hqid, Hmid, Z.eqb_refl, N.eqb_refl.
        reflexivity. }
      congruence.
Qed.

(** C8, amended.  When the queue is in the table, no row of that queue has
    the given id, and [now] plus the retention period and [now] plus the
    delay are instants a timestamp can hold, a publish appends one row, for
    that queue, with the given id and body, [available_at] at [now] plus the
    delay (zero when no delay is given), the queue's retention and attempts,
    and emits one [pgjobq.new_job] notification carrying the queue name.
    When a row of the queue has the id already, or one of the two instants
    is out of range, the publish raises the error of the INSERT, adds no row
    and emits no notification. *)
Theorem publish_inserts_one_row (conn : connection) (q : queues.row)
    (message_id : uuid) (message_body : bytea) (delay : option interval) :
  unique_queue_names (db conn) ->
  In q (pgjobq_queues (db conn)) ->
  ((forall m, In m (pgjobq_messages (db conn)) ->
              messages.queue_id m = queues.id q -> messages.id m <> message_id) ->
   timestamptz_in_range (now conn + queues.retention_period q) = true ->
   timestamptz_in_range (now conn + match delay with Some d => d | None => 0 end)
   = true ->
   publish_messages conn (queues.name q) message_id message_body delay =
   Outcome
     {| pgjobq_queues := pgjobq_queues (db conn);
        pgjobq_messages :=
          pgjobq_messages (db conn) ++
          [messages.mk (queues.id q) message_id
             (now conn + queues.retention_period q)
             (queues.max_delivery_attempts q)
             (now conn + match delay with Some d => d | None => 0 end)
             message_body] |}
     [{| channel := "pgjobq.new_job"; payload := queues.name q |}]
     (inr tt))
  /\
  ((exists m, In m (pgjobq_messages (db conn)) /\
              messages.queue_id m = queues.id q /\ messages.id m = message_id)
   \/ timestamptz_in_range (now conn + queues.retention_period q) = false
   \/ timestamptz_in_range (now conn + match delay with Some d => d | None => 0 end)
      = false ->
   exists e,
     publish_messages conn (queues.name q) message_id message_body delay =
     Outcome (db conn) [] (inl (PostgresError e))).
Proof.
  intros Hqn Hq. split.
  - intros Hfresh He Ha. now rewrite publish_messages_inserted.
  - intros Hbad.
    destruct (publish_messages_outcome conn (queues.name q) message_id message_body
                delay Hqn)
      as [[Hno _]|[(e & _ & E)|(q' & Hq' & Hname & Hfresh & E)]].
    + exfalso. apply Hno. now exists q.
    + now exists e.
    + exfalso.
      assert (q' = q) as ->.
      { pose proof (queues_named_unique _ q Hqn Hq) as E1.
        assert (H : In q' (queues_named (db conn) (queues.name q)))
          by (apply queues_named_In; tauto).
        rewrite E1 in H. simpl in H. intuition congruence. }
      destruct Hbad as [(m & Hm & Hmq & Hmid)|Hrange];
        [now apply (Hfresh m Hm Hmq)|].
      revert E. unfold publish_messages, PUBLISH_MESSAGES.
      rewrite (queues_named_unique _ q Hqn Hq).
      unfold insert_published, published_row, timestamptz_pl_interval.
      destruct Hrange as [-> | Hr]; [discriminate|].
      assert (Hr' : timestamptz_in_range (now conn + COALESCE delay 0) = false)
        by exact Hr.
      destruct (timestamptz_in_range (now conn + queues.retention_period q));
        [|discriminate].
      rewrite Hr'. discriminate.
Qed.

(** * extend_deadline *)




(** * A queue that is not there *)

(** C9.  With no queue of that name in the table, poll returns the empty
    list, ack, nack and extend_deadline raise nothing, extend_deadline
    returns [None], and all four leave both tables exactly as they were. *)
Theorem missing_queue_means_no_rows (conn : connection) (queue_name : string)
    (job_id : uuid) (batch_size : nat) (fifo : bool) :
  ~ queue_exists (db conn) queue_name ->
  poll_for_messages conn queue_name batch_size fifo = Outcome (db conn) [] (inr []) /\
  (result (ack_message conn queue_name job_id) = inr tt /\
   tables (ack_message conn queue_name job_id) = db conn) /\
  (result (nack_message conn queue_name job_id) = inr tt /\
   tables (nack_message conn queue_name job_id) = db conn) /\
  extend_ack_deadline conn queue_name job_id = Outcome (db conn) [] (inr None).
Proof.
  intros Hno.
  pose proof (queues_named_missing _ _ Hno) as E.
  assert (Hnot : forall m, is_job None job_id m = false) by reflexivity.
  repeat split.
  - rewrite poll_for_messages_query. unfold _POLL_FOR_MESSAGES. now rewrite E.
  - unfold ack_message, ACK_MESSAGE. now rewrite E.
  - unfold ack_message, ACK_MESSAGE. rewrite E. simpl.
    rewrite filter_all by reflexivity. apply with_messages_same.
  - unfold nack_message, NACK_MESSAGE. now rewrite E.
  - unfold nack_message, NACK_MESSAGE. rewrite E. simpl.
    rewrite map_id_ext by reflexivity. apply with_messages_same.
  - unfold extend_ack_deadline, EXTEND_ACK_DEADLINE. rewrite E. simpl.
    rewrite (filter_none (is_job None job_id)) by reflexivity. reflexivity.
Qed.

(** * Sequences of calls *)

Lemma rescheduled_refl (d : database) : rescheduled d d.
Proof.
  split; [reflexivity|]. exists (fun m => m). now rewrite map_id.
Qed.

Lemma rescheduled_consistent (d d' : database) :
  rescheduled d d' -> consistent d -> consistent d'.
Proof.
  intros (Hq & g & Hm & Hg) (H1 & H2 & H3 & H4).
  unfold consistent, unique_queue_names, attempts_positive,
    unique_message_ids, attempts_nonneg in *.
  rewrite Hq, Hm. repeat split; auto.
  - rewrite map_map. erewrite map_ext; [exact H3|]. intros m. apply Hg.
  - rewrite Forall_map. eapply Forall_impl; [|exact H4].
    intros m Hm0. simpl. now replace (messages.delivery_attempts_remaining (g m))
      with (messages.delivery_attempts_remaining m) by (symmetry; apply Hg).
Qed.

Lemma nack_rescheduled (conn : connection) (queue_name : string) (job_id : uuid) :
  rescheduled (db conn) (tables (nack_message conn queue_name job_id)).
Proof.
  unfold nack_message, NACK_MESSAGE.
  destruct (scalar_subquery _) as [e|queue_id]; simpl; [apply rescheduled_refl|].
  split; [reflexivity|]. eexists. split; [reflexivity|].
  intros m. simpl. now destruct (is_job queue_id job_id m).
Qed.

Lemma extend_rescheduled (conn : connection) (queue_name : string) (job_id : uuid) :
  rescheduled (db conn) (tables (extend_ack_deadline conn queue_name job_id)).
Proof.
  unfold extend_ack_deadline, EXTEND_ACK_DEADLINE.
  destruct (scalar_subquery (map queues.id _)) as [e|queue_id]; simpl;
    [apply rescheduled_refl|].
  destruct (scalar_subquery (filter _ _)) as [e|[mfu|]]; simpl;
    try apply rescheduled_refl.
  destruct (scalar_subquery (map queues.ack_deadline _)) as [e|[d|]]; simpl;
    try apply rescheduled_refl.
  split; [reflexivity|]. eexists. split; [reflexivity|].
  intros m. simpl. now destruct (N.eqb (messages.id m) (messages.id mfu)).
Qed.

Lemma ack_consistent (conn : connection) (queue_name : string) (job_id : uuid) :
  consistent (db conn) -> consistent (tables (ack_message conn queue_name job_id)).
Proof.
  intros (H1 & H2 & H3 & H4). unfold ack_message, ACK_MESSAGE.
  destruct (scalar_subquery _) as [e|queue_id]; simpl; [now repeat split|].
  repeat split; auto.
  - now apply NoDup_map_filter.
  - unfold attempts_nonneg in *. simpl. rewrite Forall_forall in *.
    intros m Hm. apply filter_In in Hm. now apply H4.
Qed.

Lemma publish_consistent (conn : connection) (queue_name : string)
    (message_id : uuid) (message_body : bytea) (delay : option interval) :
  consistent (db conn) ->
  ~ In message_id (map messages.id (pgjobq_messages (db conn))) ->
  consistent (tables (publish_messages conn queue_name message_id message_body delay)).
Proof.
  intros (H1 & H2 & H3 & H4) Hfresh.
  destruct (publish_messages_outcome conn queue_name message_id message_body delay H1)
    as [[_ E]|[(e & _ & E)|(q & Hq & _ & _ & E)]]; rewrite E; simpl.
  - now repeat split.
  - now repeat split.
  - repeat split; auto.
    + unfold unique_message_ids in *. simpl. rewrite map_app. simpl.
      apply NoDup_app; [exact H3|repeat constructor; intros []|].
      intros k Hk [<-|[]]. contradiction.
    + unfold attempts_nonneg in *. simpl. apply Forall_app. split; [exact H4|].
      constructor; [|constructor]. simpl.
      unfold attempts_positive in H2. rewrite Forall_forall in H2.
      specialize (H2 q Hq). lia.
Qed.

Lemma poll_consistent (conn : connection) (queue_name : string)
    (batch_size : nat) (fifo : bool) :
  consistent (db conn) ->
  consistent (tables (poll_for_messages conn queue_name batch_size fifo)).
Proof.
  intros (H1 & H2 & H3 & H4).
  destruct (poll_for_messages_outcome conn queue_name batch_size fifo H1 H3)
    as [[_ E]|(q & rows & Hq & Hname & E & _)]; rewrite E; simpl; [now repeat split|].
  repeat split; auto.
  - unfold unique_message_ids in *. simpl. rewrite map_map.
    erewrite map_ext; [exact H3|].
    intros m. simpl. now destruct (existsb _ _).
  - unfold attempts_nonneg in *. simpl. rewrite Forall_map.
    rewrite Forall_forall in *. intros m Hin.
    destruct (existsb _ _) eqn:Ex; [|now apply H4].
    apply (selected_rows_joins _ (scan_order_perm fifo)) in Ex; auto.
    apply (selected_rows_In _ (scan_order_perm fifo)) in Ex.
    destruct Ex as (_ & Hw & _). apply poll_where_true in Hw.
    specialize (H4 m Hin). simpl. lia.
Qed.

Lemma perform_consistent (conn : connection) (c : call) :
  consistent (db conn) -> fresh (db conn) c -> consistent (perform conn c).
Proof.
  intros Hc Hf. destruct c; simpl in *.
  - now apply publish_consistent.
  - now apply poll_consistent.
  - now apply ack_consistent.
  - eapply rescheduled_consistent; [apply nack_rescheduled|exact Hc].
  - eapply rescheduled_consistent; [apply extend_rescheduled|exact Hc].
Qed.

Lemma run_consistent (trace : list step) (d : database) :
  consistent d -> publishes_fresh_ids d trace -> consistent (run d trace).
Proof.
  revert d. induction trace as [|s rest IH]; simpl; intros d Hc Hf; [exact Hc|].
  destruct Hf as [Hs Hrest]. apply IH; [|exact Hrest].
  now apply (perform_consistent
               {| db := d; now := at_time s; locked := locked_then s |}).
Qed.

Lemma insert_published_rows (conn : connection) (queue_info : list queues.row)
    (p2 : uuid) (p3 : bytea) (p4 : option interval) (rows rows' : list messages.row) :
  insert_published conn queue_info p2 p3 p4 rows = inr rows' ->
  forall m', In m' rows' ->
    In m' rows \/
    (exists q, In q queue_info /\
               m' = messages.mk (queues.id q) p2
                      (now conn + queues.retention_period q)
                      (queues.max_delivery_attempts q)
                      (now conn + COALESCE p4 0) p3).
Proof.
  revert rows rows'.
  induction queue_info as [|q rest IH]; intros rows rows' E m' Hin; simpl in E.
  - injection E as <-. now left.
  - destruct (published_row conn q p2 p3 p4) as [e|r] eqn:Ep; [discriminate|].
    destruct (INSERT_INTO_messages rows r) as [e|rows1] eqn:Ei; [discriminate|].
    destruct (IH _ _ E m' Hin) as [Hold|(q' & Hq' & Hm')].
    + unfold INSERT_INTO_messages in Ei.
      destruct (existsb (same_key r) rows); [discriminate|]. injection Ei as <-.
      apply in_app_or in Hold. destruct Hold as [Hold|[<-|[]]]; [now left|].
      right. exists q. split; [now left|].
      unfold published_row, timestamptz_pl_interval in Ep.
      destruct (timestamptz_in_range (now conn + queues.retention_period q));
        [|discriminate].
      destruct (timestamptz_in_range (now conn + COALESCE p4 0));
        [|discriminate].
      now injection Ep as <-.
    + right. exists q'. split; [now right|exact Hm'].
Qed.

(** The tables a publish leaves: those it found, or those the INSERT
    made. *)
Lemma publish_messages_tables (conn : connection) (queue_name : string)
    (message_id : uuid) (message_body : bytea) (delay : option interval) :
  tables (publish_messages conn queue_name message_id message_body delay) = db conn
  \/
  (exists rows,
     insert_published conn (queues_named (db conn) queue_name) message_id
       message_body delay (pgjobq_messages (db conn)) = inr rows /\
     tables (publish_messages conn queue_name message_id message_body delay)
     = with_messages (db conn) rows).
Proof.
  unfold publish_messages, PUBLISH_MESSAGES.
  destruct (insert_published conn (queues_named (db conn) queue_name) message_id
              message_body delay (pgjobq_messages (db conn))) as [e|rows].
  - now left.
  - right. exists rows. split; [reflexivity|].
    now destruct (queues_named (db conn) queue_name).
Qed.

(** The calls other than poll give every row they keep the counter it had,
    and the row a publish adds the attempts of its queue. *)
Lemma counters_kept (conn : connection) (c : call) (m' : messages.row) :
  (forall queue_name batch_size fifo, c <> Poll queue_name batch_size fifo) ->
  In m' (pgjobq_messages (perform conn c)) ->
  (exists m, In m (pgjobq_messages (db conn)) /\
             messages.id m' = messages.id m /\
             messages.delivery_attempts_remaining m'
             = messages.delivery_attempts_remaining m)
  \/
  (exists queue_name message_body delay q,
     c = Publish queue_name (messages.id m') message_body delay /\
     In q (pgjobq_queues (db conn)) /\ queues.name q = queue_name /\
     messages.delivery_attempts_remaining m' = queues.max_delivery_attempts q).
Proof.
  intros Hnp Hin. destruct c as [qn mid b dl|qn n f|qn job|qn job|qn job]; simpl in Hin.
  - destruct (publish_messages_tables conn qn mid b dl) as [E|(rows & E & Et)].
    + rewrite E in Hin. left. now exists m'.
    + rewrite Et in Hin. simpl in Hin.
      destruct (insert_published_rows _ _ _ _ _ _ _ E m' Hin)
        as [Hold|(q & Hq & ->)].
      * left. now exists m'.
      * right. apply queues_named_In in Hq. exists qn, b, dl, q.
        simpl. tauto.
  - now specialize (Hnp qn n f).
  - left. unfold ack_message, ACK_MESSAGE in Hin.
    destruct (scalar_subquery _) as [e|queue_id]; simpl in Hin.
    + now exists m'.
    + apply filter_In in Hin. exists m'. tauto.
  - left. destruct (nack_rescheduled conn qn job) as (_ & g & Hm & Hg).
    rewrite Hm in Hin. apply in_map_iff in Hin. destruct Hin as (m & <- & Hin).
    exists m. split; [exact Hin|]. split; apply Hg.
  - left. destruct (extend_rescheduled conn qn job) as (_ & g & Hm & Hg).
    rewrite Hm in Hin. apply in_map_iff in Hin. destruct Hin as (m & <- & Hin).
    exists m. split; [exact Hin|]. split; apply Hg.
Qed.

(** C10, amended.  From tables that meet the data model's constraints, with no
    negative counter, every sequence of publish, poll, ack, nack and
    extend_deadline calls whose publishes bring fresh ids ends in tables with
    no negative counter; there a poll hands out only rows whose counter is
    positive, and every call other than a poll leaves each row the counter it
    had and gives the row a publish adds the attempts of its queue. *)
Theorem attempts_never_negative (d : database) (trace : list step) :
  unique_queue_names d ->
  attempts_positive d ->
  unique_message_ids d ->
  attempts_nonneg d ->
  publishes_fresh_ids d trace ->
  attempts_nonneg (run d trace) /\
  (forall conn queue_name batch_size fifo rows r m,
     db conn = run d trace ->
     result (poll_for_messages conn queue_name batch_size fifo) = inr rows ->
     In r rows ->
     In m (pgjobq_messages (run d trace)) ->
     messages.id m = Message.id r ->
     messages.delivery_attempts_remaining m > 0) /\
  (forall conn c m',
     db conn = run d trace ->
     (forall queue_name batch_size fifo, c <> Poll queue_name batch_size fifo) ->
     In m' (pgjobq_messages (perform conn c)) ->
     (exists m, In m (pgjobq_messages (run d trace)) /\
                messages.id m' = messages.id m /\
                messages.delivery_attempts_remaining m'
                = messages.delivery_attempts_remaining m)
     \/
     (exists queue_name message_body delay q,
        c = Publish queue_name (messages.id m') message_body delay /\
        In q (pgjobq_queues (run d trace)) /\ queues.name q = queue_name /\
        messages.delivery_attempts_remaining m' = queues.max_delivery_attempts q /\
        queues.max_delivery_attempts q > 0)).
Proof.
  intros H1 H2 H3 H4 Hf.
  assert (Hc : consistent (run d trace)) by (apply run_consistent; [repeat split|]; auto).
  destruct Hc as (R1 & R2 & R3 & R4). split; [exact R4|]. split.
  - intros conn queue_name batch_size fifo rows r m Hdb Hres Hr Hm Hid.
    rewrite <- Hdb in *.
    destruct (poll_for_messages_outcome conn queue_name batch_size fifo R1 R3)
      as [[_ E]|(q & rows0 & Hq & Hname & E & Hperm)]; rewrite E in Hres;
      simpl in Hres; injection Hres as <-; [contradiction|].
    apply (Permutation_in _ Hperm) in Hr.
    apply in_map_iff in Hr. destruct Hr as (s & <- & Hs). simpl in Hid.
    apply (selected_rows_In _ (scan_order_perm fifo)) in Hs.
    destruct Hs as (Hsin & Hw & _). apply poll_where_true in Hw.
    assert (m = s) by (apply (unique_id_eq (db conn)); auto). subst s.
    apply (attempts_remain (db conn)); tauto.
  - intros conn c m' Hdb Hnp Hin. rewrite <- Hdb in *.
    destruct (counters_kept conn c m' Hnp Hin)
      as [Hold|(qn & b & dl & q & Hc & Hq & Hname & Hd)]; [now left|].
    right. exists qn, b, dl, q. repeat split; auto.
    unfold attempts_positive in R2. rewrite Forall_forall in R2. now apply R2.
Qed.

(** * The theorems on the small database *)

Example uuid_text_canonical :
  uuid_text 0x0123456789abcdef0011223344556677%N
  = "01234567-89ab-cdef-0011-223344556677".
Proof. reflexivity. Qed.





(** C3.  Uuid 2 is published to "jobs" first and uuid 1 second; FIFO polls
    of one row at instants 5 and 6 deliver uuid 1 and then uuid 2.  The
    delivered sequence is not a subsequence of the insertion order. *)
Lemma fifo_poll_follows_uuid_not_insertion :
  tables (publish_messages
            (Scenario.connect
               (tables (publish_messages
                          (Scenario.connect Scenario.no_messages 0)
                          "jobs" 2%N [] None))
               1)
            "jobs" 1%N [] None)
  = Scenario.two_jobs /\
  map messages.id (pgjobq_messages Scenario.two_jobs) = [2%N; 1%N] /\
  result (poll_for_messages (Scenario.connect Scenario.two_jobs 5) "jobs" 1 true)
  = inr [Message.mk 1%N [] 15] /\
  result (poll_for_messages
            (Scenario.connect
               (tables (poll_for_messages
                          (Scenario.connect Scenario.two_jobs 5) "jobs" 1 true))
               6)
            "jobs" 1 true)
  = inr [Message.mk 2%N [] 16] /\
  subsequence [1%N; 2%N] [2%N; 1%N] = false.
Proof. repeat split; reflexivity. Qed.

Lemma ack_deletes_row_and_notifies_if_queue_witness :
  unique_queue_names Scenario.two_jobs /\
  result (ack_message (Scenario.connect Scenario.two_jobs 5) "jobs" 2%N) = inr tt /\
  queue_exists Scenario.two_jobs "jobs" /\
  sent (ack_message (Scenario.connect Scenario.two_jobs 5) "jobs" 2%N)
  = [{| channel := "pgjobq.job_completed";
        payload := "jobs,00000000-0000-0000-0000-000000000002" |}] /\
  ~ queue_exists Scenario.two_jobs "missing" /\
  sent (ack_message (Scenario.connect Scenario.two_jobs 5) "missing" 2%N) = [].
Proof.
  assert (H1 : unique_queue_names Scenario.two_jobs) by (unfold unique_queue_names; simpl; distinct).
  assert (H2 : queue_exists Scenario.two_jobs "jobs")
    by (exists Scenario.jobs; simpl; tauto).
  assert (H3 : ~ queue_exists Scenario.two_jobs "missing").
  { intros (q & Hq & Hname). simpl in Hq.
    destruct Hq as [<-|[<-|[]]]; discriminate. }
  split; [exact H1|].
  destruct (ack_deletes_row_and_notifies_if_queue
              (Scenario.connect Scenario.two_jobs 5) "jobs" 2%N H1)
    as (E & Hs & _).
  destruct (ack_deletes_row_and_notifies_if_queue
              (Scenario.connect Scenario.two_jobs 5) "missing" 2%N H1)
    as (_ & _ & Hn & _).
  split; [exact E|]. split; [exact H2|]. split; [exact (Hs H2)|].
  split; [exact H3|exact (Hn H3)].
Defined.

(** C4 as stated fails: no row of "jobs" has uuid 7; an ack of it deletes
    nothing and still emits the notification. *)
Lemma ack_notifies_without_delete :
  existsb (fun m => N.eqb (messages.id m) 7%N) (pgjobq_messages Scenario.two_jobs)
  = false /\
  result (ack_message (Scenario.connect Scenario.two_jobs 5) "jobs" 7%N) = inr tt /\
  tables (ack_message (Scenario.connect Scenario.two_jobs 5) "jobs" 7%N)
  = Scenario.two_jobs /\
  sent (ack_message (Scenario.connect Scenario.two_jobs 5) "jobs" 7%N)
  = [{| channel := "pgjobq.job_completed";
        payload := "jobs,00000000-0000-0000-0000-000000000007" |}].
Proof. repeat split; reflexivity. Qed.

Lemma nack_sets_available_at_now_witness :
  unique_queue_names Scenario.two_jobs /\
  job_row Scenario.two_jobs "jobs" 2%N Scenario.first_job /\
  In (messages.mk 1 2%N 1000 3 6 [])
     (pgjobq_messages
        (tables (nack_message (Scenario.connect Scenario.two_jobs 6) "jobs" 2%N))).
Proof.
  assert (H1 : unique_queue_names Scenario.two_jobs) by (unfold unique_queue_names; simpl; distinct).
  assert (H2 : job_row Scenario.two_jobs "jobs" 2%N Scenario.first_job).
  { split; [simpl; tauto|]. split; [reflexivity|].
    exists Scenario.jobs. simpl. tauto. }
  split; [exact H1|]. split; [exact H2|].
  destruct (nack_sets_available_at_now
              (Scenario.connect Scenario.two_jobs 6) "jobs" 2%N Scenario.first_job H1 H2)
    as (_ & _ & Hin & _).
  exact Hin.
Defined.


Lemma publish_inserts_one_row_witness :
  unique_queue_names Scenario.no_messages /\
  In Scenario.jobs (pgjobq_queues Scenario.no_messages) /\
  timestamptz_in_range (0 + queues.retention_period Scenario.jobs) = true /\
  timestamptz_in_range (0 + 0) = true /\
  publish_messages (Scenario.connect Scenario.no_messages 0) "jobs" 2%N [] None
  = Outcome
      {| pgjobq_queues := [Scenario.jobs; Scenario.mail];
         pgjobq_messages := [Scenario.first_job] |}
      [{| channel := "pgjobq.new_job"; payload := "jobs" |}]
      (inr tt) /\
  unique_queue_names Scenario.two_jobs /\
  In Scenario.first_job (pgjobq_messages Scenario.two_jobs) /\
  exists e,
    publish_messages (Scenario.connect Scenario.two_jobs 5) "jobs" 2%N [] None
    = Outcome Scenario.two_jobs [] (inl (PostgresError e)).
Proof.
  assert (H1 : unique_queue_names Scenario.no_messages) by (unfold unique_queue_names; simpl; distinct).
  assert (H2 : In Scenario.jobs (pgjobq_queues Scenario.no_messages)) by (simpl; tauto).
  assert (H3 : forall m,
             In m (pgjobq_messages (db (Scenario.connect Scenario.no_messages 0))) ->
             messages.queue_id m = queues.id Scenario.jobs -> messages.id m <> 2%N)
    by (intros m []).
  assert (H4 : unique_queue_names Scenario.two_jobs) by (unfold unique_queue_names; simpl; distinct).
  assert (H5 : In Scenario.first_job (pgjobq_messages Scenario.two_jobs)) by (simpl; tauto).
  split; [exact H1|]. split; [exact H2|]. split; [reflexivity|]. split; [reflexivity|].
  split; [|split; [exact H4|split; [exact H5|]]].
  - destruct (publish_inserts_one_row
                (Scenario.connect Scenario.no_messages 0) Scenario.jobs 2%N [] None
                H1 H2) as [Hok _].
    exact (Hok H3 eq_refl eq_refl).
  - destruct (publish_inserts_one_row
                (Scenario.connect Scenario.two_jobs 5) Scenario.jobs 2%N [] None
                H4 H2) as [_ Herr].
    apply Herr. left. exists Scenario.first_job. split; [exact H5|].
    split; reflexivity.
Defined.

(** C8 as stated fails: "jobs" is in the table and already holds uuid 2; a
    publish of uuid 2 to it raises the unique violation, inserts no row and
    emits no notification.  So does a publish whose delay takes
    [available_at] past the last instant a timestamp holds. *)
Lemma publish_of_held_id_inserts_nothing :
  queue_exists Scenario.two_jobs "jobs" /\
  publish_messages (Scenario.connect Scenario.two_jobs 5) "jobs" 2%N [] None
  = Outcome Scenario.two_jobs [] (inl (PostgresError unique_violation)) /\
  publish_messages (Scenario.connect Scenario.two_jobs 5) "jobs" 3%N []
    (Some END_TIMESTAMP)
  = Outcome Scenario.two_jobs [] (inl (PostgresError datetime_field_overflow)).
Proof.
  split; [exists Scenario.jobs; simpl; tauto|]. split; reflexivity.
Qed.

Lemma missing_queue_means_no_rows_witness :
  ~ queue_exists Scenario.two_jobs "missing" /\
  poll_for_messages (Scenario.connect Scenario.two_jobs 5) "missing" 3 true
  = Outcome Scenario.two_jobs [] (inr []).
Proof.
  assert (H1 : ~ queue_exists Scenario.two_jobs "missing").
  { intros (q & Hq & Hname). simpl in Hq.
    destruct Hq as [<-|[<-|[]]]; discriminate. }
  split; [exact H1|].
  destruct (missing_queue_means_no_rows
              (Scenario.connect Scenario.two_jobs 5) "missing" 2%N 3 true H1)
    as (E & _).
  exact E.
Defined.

Lemma attempts_never_negative_witness :
  unique_queue_names Scenario.no_messages /\
  attempts_positive Scenario.no_messages /\
  unique_message_ids Scenario.no_messages /\
  attempts_nonneg Scenario.no_messages /\
  publishes_fresh_ids Scenario.no_messages Scenario.session /\
  attempts_nonneg (run Scenario.no_messages Scenario.session).
Proof.
  assert (H1 : unique_queue_names Scenario.no_messages) by (unfold unique_queue_names; simpl; distinct).
  assert (H2 : attempts_positive Scenario.no_messages) by (unfold attempts_positive; simpl; each_row).
  assert (H3 : unique_message_ids Scenario.no_messages) by (unfold unique_message_ids; simpl; distinct).
  assert (H4 : attempts_nonneg Scenario.no_messages) by (unfold attempts_nonneg; simpl; each_row).
  assert (H5 : publishes_fresh_ids Scenario.no_messages Scenario.session)
    by (simpl; tauto).
  repeat (split; [assumption|]).
  destruct (attempts_never_negative Scenario.no_messages Scenario.session H1 H2 H3 H4 H5)
    as (Hnn & _).
  exact Hnn.
Defined.

(** C10 as stated fails: from tables with no message, two publishes put the
    same uuid on "jobs" and on "mail", with counters 3 and 5; each poll of
    "mail" also rewrites the row of "jobs"; after three polls the counters
    are 0 and 2, none negative, and the fourth poll leaves -1 on the row of
    "jobs". *)
Lemma poll_of_other_queue_drives_counter_negative :
  map messages.delivery_attempts_remaining
    (pgjobq_messages (run Scenario.no_messages Workload.same_uuid))
  = [3; 5] /\
  map messages.queue_id
    (pgjobq_messages (run Scenario.no_messages Workload.same_uuid))
  = [1; 2] /\
  map messages.delivery_attempts_remaining
    (pgjobq_messages
       (run Scenario.no_messages
          (Workload.same_uuid ++ firstn 3 Workload.mail_polls)))
  = [0; 2] /\
  map messages.delivery_attempts_remaining
    (pgjobq_messages
       (run Scenario.no_messages (Workload.same_uuid ++ Workload.mail_polls)))
  = [-1; 1].
Proof. repeat split; reflexivity. Qed.

(** * More on what the calls do *)



(** A poll's outcome on a queue that is in the table. *)
Lemma poll_for_messages_on (conn : connection) (q : queues.row)
    (batch_size : nat) (fifo : bool) :
  unique_queue_names (db conn) -> unique_message_ids (db conn) ->
  In q (pgjobq_queues (db conn)) ->
  exists rows,
    poll_for_messages conn (queues.name q) batch_size fifo =
    Outcome
      (with_messages (db conn)
         (map (fun m =>
                 if existsb (N.eqb (messages.id m))
                      (map messages.id
                         (selected_rows (scan_order fifo) conn q batch_size))
                 then poll_set conn q m else m)
            (pgjobq_messages (db conn))))
      []
      (inr rows) /\
    Permutation rows
      (map (fun m => poll_returning (poll_set conn q m))
         (selected_rows (scan_order fifo) conn q batch_size)).
Proof.
  intros Hqn Hid Hq. rewrite poll_for_messages_query.
  rewrite (poll_statement (scan_order fifo) conn q batch_size
             (queues.name q) (queues_named_unique _ q Hqn Hq)).
  eexists. split; [reflexivity|].
  apply Permutation_map.
  now apply (selected_rows_joined _ (scan_order_perm fifo)).
Qed.


Lemma poll_keeps_keys (conn : connection) (queue_name : string)
    (batch_size : nat) (fifo : bool) :
  pgjobq_queues (tables (poll_for_messages conn queue_name batch_size fifo))
  = pgjobq_queues (db conn) /\
  map messages.id
    (pgjobq_messages (tables (poll_for_messages conn queue_name batch_size fifo)))
  = map messages.id (pgjobq_messages (db conn)).
Proof.
  rewrite poll_for_messages_query. unfold _POLL_FOR_MESSAGES.
  destruct (scalar_subquery _) as [e|[q|]]; simpl; auto.
  split; [reflexivity|]. rewrite map_map. apply map_ext.
  intros m. now destruct (existsb _ _).
Qed.

(** A row a poll returns is a row of the table that passes the poll's
    test. *)
Lemma poll_returned_row (conn : connection) (queue_name : string)
    (batch_size : nat) (fifo : bool) (rows : list Message.t) (r : Message.t) :
  unique_queue_names (db conn) -> unique_message_ids (db conn) ->
  result (poll_for_messages conn queue_name batch_size fifo) = inr rows ->
  In r rows ->
  exists q m,
    In q (pgjobq_queues (db conn)) /\ queues.name q = queue_name /\
    In m (pgjobq_messages (db conn)) /\ messages.id m = Message.id r /\
    messages.body m = Message.body r /\
    poll_where conn (Some (queues.id q)) m = true /\ locked conn m = false.
Proof.
  intros Hqn Hid Hres Hr.
  destruct (poll_for_messages_outcome conn queue_name batch_size fifo Hqn Hid)
    as [[_ E]|(q & rows0 & Hq & Hname & E & Hperm)]; rewrite E in Hres;
    simpl in Hres; injection Hres as <-; [contradiction|].
  apply (Permutation_in _ Hperm) in Hr.
  apply in_map_iff in Hr. destruct Hr as (m & <- & Hm).
  apply (selected_rows_In _ (scan_order_perm fifo)) in Hm.
  exists q, m. simpl. tauto.
Qed.

(** X2.  A row a poll has returned is not returned by any poll that runs on
    the tables it left, on any queue, up to and including the instant
    [now + ack_deadline] the first poll wrote into the row. *)
Theorem no_redelivery_before_ack_deadline (conn later : connection)
    (q : queues.row) (batch_size batch_size' : nat) (fifo fifo' : bool)
    (queue_name' : string) (rows rows' : list Message.t) (r r' : Message.t) :
  unique_queue_names (db conn) ->
  unique_message_ids (db conn) ->
  In q (pgjobq_queues (db conn)) ->
  result (poll_for_messages conn (queues.name q) batch_size fifo) = inr rows ->
  In r rows ->
  db later = tables (poll_for_messages conn (queues.name q) batch_size fifo) ->
  now later <= now conn + queues.ack_deadline q ->
  result (poll_for_messages later queue_name' batch_size' fifo') = inr rows' ->
  In r' rows' ->
  Message.id r' <> Message.id r.
Proof.
  intros Hqn Hid Hq Hres Hr Hdb Hnow Hres' Hr' Heq.
  destruct (poll_keeps_keys conn (queues.name q) batch_size fifo) as [Kq Km].
  assert (Hqn' : unique_queue_names (db later))
    by (unfold unique_queue_names; rewrite Hdb, Kq; exact Hqn).
  assert (Hid' : unique_message_ids (db later))
    by (unfold unique_message_ids; rewrite Hdb, Km; exact Hid).
  destruct (poll_returned_row later queue_name' batch_size' fifo' rows' r'
              Hqn' Hid' Hres' Hr')
    as (q' & m' & _ & _ & Hm' & Hid'' & _ & Hw & _).
  apply poll_where_true in Hw. destruct Hw as (_ & _ & Hav & _).
  destruct (poll_for_messages_on conn q batch_size fifo Hqn Hid Hq)
    as (rows0 & E & Hperm).
  rewrite E in Hres, Hdb. simpl in Hres. injection Hres as <-.
  apply (Permutation_in _ Hperm) in Hr.
  apply in_map_iff in Hr. destruct Hr as (s & <- & Hs). simpl in Heq.
  rewrite Hdb in Hm'. simpl in Hm'. apply in_map_iff in Hm'.
  destruct Hm' as (x & Hx & Hxin).
  assert (x = s).
  { apply (unique_id_eq (db conn)); auto.
    - now apply (selected_rows_In _ (scan_order_perm fifo)) in Hs.
    - rewrite <- Heq, <- Hid'', <- Hx. now destruct (existsb _ _). }
  subst x.
  apply (selected_rows_joins _ (scan_order_perm fifo)) in Hs; auto.
  rewrite Hs in Hx. subst m'. simpl in Hav. lia.
Qed.


Lemma publish_keeps_unique_ids (conn : connection) (q : queues.row)
    (message_id : uuid) (message_body : bytea) (delay : option interval) :
  unique_queue_names (db conn) -> unique_message_ids (db conn) ->
  In q (pgjobq_queues (db conn)) ->
  ~ In message_id (map messages.id (pgjobq_messages (db conn))) ->
  unique_queue_names
    (tables (publish_messages conn (queues.name q) message_id message_body delay)) /\
  unique_message_ids
    (tables (publish_messages conn (queues.name q) message_id message_body delay)).
Proof.
  intros Hqn Hid Hq Hfresh.
  destruct (publish_messages_outcome conn (queues.name q) message_id message_body
              delay Hqn)
    as [[_ E]|[(e & _ & E)|(q' & _ & _ & _ & E)]]; rewrite E; simpl;
    [now split|now split|].
  split; [exact Hqn|]. unfold unique_message_ids in *. simpl.
  rewrite map_app. simpl.
  apply NoDup_app; [exact Hid|repeat constructor; intros []|].
  intros k Hk [<-|[]]. contradiction.
Qed.

(** The tables a publish to a queue of the table leaves: those it found, or
    those with the row of the message added. *)
Lemma publish_messages_added (conn : connection) (q : queues.row)
    (message_id : uuid) (message_body : bytea) (delay : option interval) :
  unique_queue_names (db conn) ->
  In q (pgjobq_queues (db conn)) ->
  tables (publish_messages conn (queues.name q) message_id message_body delay)
  = db conn
  \/
  (result (publish_messages conn (queues.name q) message_id message_body delay)
   = inr tt /\
   tables (publish_messages conn (queues.name q) message_id message_body delay)
   = with_messages (db conn)
       (pgjobq_messages (db conn) ++
        [messages.mk (queues.id q) message_id
           (now conn + queues.retention_period q)
           (queues.max_delivery_attempts q)
           (now conn + COALESCE delay 0)
           message_body])).
Proof.
  intros Hqn Hq.
  destruct (publish_messages_outcome conn (queues.name q) message_id message_body
              delay Hqn)
    as [[_ E]|[(e & _ & E)|(q' & Hq' & Hname & _ & E)]]; rewrite E; simpl;
    [now left|now left|].
  right. split; [reflexivity|].
  assert (q' = q) as ->; [|reflexivity].
  pose proof (queues_named_unique _ q Hqn Hq) as E1.
  assert (H : In q' (queues_named (db conn) (queues.name q)))
    by (apply queues_named_In; tauto).
  rewrite E1 in H. simpl in H. intuition congruence.
Qed.

(** X3.  A poll that returns a published message runs strictly after
    [now + delay] of the publish (its [now] when no delay is given) and
    strictly before [now + retention_period]; the queue it was published to
    allows at least one attempt, and the record carries the published
    body. *)
Theorem published_message_polled_only_in_window (conn later : connection)
    (q : queues.row) (message_id : uuid) (message_body : bytea)
    (delay : option interval) (queue_name' : string) (batch_size : nat)
    (fifo : bool) (rows : list Message.t) (r : Message.t) :
  unique_queue_names (db conn) ->
  unique_message_ids (db conn) ->
  In q (pgjobq_queues (db conn)) ->
  ~ In message_id (map messages.id (pgjobq_messages (db conn))) ->
  db later
  = tables (publish_messages conn (queues.name q) message_id message_body delay) ->
  result (poll_for_messages later queue_name' batch_size fifo) = inr rows ->
  In r rows ->
  Message.id r = message_id ->
  now conn + COALESCE delay 0 < now later /\
  now later < now conn + queues.retention_period q /\
  queues.max_delivery_attempts q <> 0 /\
  Message.body r = message_body.
Proof.
  intros Hqn Hid Hq Hfresh Hdb Hres Hr Hrid.
  destruct (publish_keeps_unique_ids conn q message_id message_body delay
              Hqn Hid Hq Hfresh) as [Hqn' Hid'].
  rewrite <- Hdb in Hqn', Hid'.
  destruct (poll_returned_row later queue_name' batch_size fifo rows r
              Hqn' Hid' Hres Hr)
    as (q' & m & _ & _ & Hm & Hmid & Hbody & Hw & _).
  assert (Hold : In m (pgjobq_messages (db conn)) -> False).
  { intros Hold. apply Hfresh. rewrite <- Hrid, <- Hmid. now apply in_map. }
  rewrite Hdb in Hm.
  destruct (publish_messages_added conn q message_id message_body delay Hqn Hq)
    as [E|[_ E]]; rewrite E in Hm; [contradiction|].
  simpl in Hm. apply in_app_or in Hm. destruct Hm as [Hm|[<-|[]]]; [contradiction|].
  apply poll_where_true in Hw. simpl in Hw, Hbody. repeat split; try lia.
  now symmetry.
Qed.




(** X6.  Once a job is acked, no poll of its queue that runs on the tables
    the ack left returns it. *)
Theorem acked_job_is_not_polled (conn later : connection) (queue_name : string)
    (job_id : uuid) (batch_size : nat) (fifo : bool) (rows : list Message.t)
    (r : Message.t) :
  unique_queue_names (db conn) ->
  unique_message_ids (db conn) ->
  db later = tables (ack_message conn queue_name job_id) ->
  result (poll_for_messages later queue_name batch_size fifo) = inr rows ->
  In r rows ->
  Message.id r <> job_id.
Proof.
  intros Hqn Hid Hdb Hres Hr Heq.
  unfold ack_message, ACK_MESSAGE in Hdb.
  destruct (queue_id_found _ queue_name Hqn) as (queue_id & E & _ & Hjob).
  rewrite E in Hdb. simpl in Hdb.
  assert (Hqn' : unique_queue_names (db later))
    by (unfold unique_queue_names; rewrite Hdb; exact Hqn).
  assert (Hid' : unique_message_ids (db later)).
  { unfold unique_message_ids. rewrite Hdb. simpl.
    now apply NoDup_map_filter. }
  destruct (poll_returned_row later queue_name batch_size fifo rows r
              Hqn' Hid' Hres Hr)
    as (q & m & Hq & Hname & Hm & Hmid & _ & Hw & _).
  apply poll_where_true in Hw. destruct Hw as (_ & _ & _ & Hmq).
  rewrite Hdb in Hm, Hq. simpl in Hm, Hq.
  apply filter_In in Hm. destruct Hm as [Hin Hkeep].
  apply negb_true_iff in Hkeep.
  assert (Hj : is_job queue_id job_id m = true).
  { apply Hjob; [exact Hin|]. split; [exact Hin|]. split; [congruence|].
    exists q. tauto. }
  congruence.
Qed.

Lemma filter_twice {A : Type} (p : A -> bool) (l : list A) :
  filter p (filter p l) = filter p l.
Proof.
  apply filter_all. intros x Hx. now apply filter_In in Hx.
Qed.

(** X7.  A second ack of the same job, at any instant and under any locks,
    leaves the tables as the first ack left them. *)
Theorem ack_twice_is_ack_once (conn : connection) (queue_name : string)
    (job_id : uuid) (t : timestamptz) (l : messages.row -> bool) :
  tables (ack_message
            {| db := tables (ack_message conn queue_name job_id);
               now := t; locked := l |}
            queue_name job_id)
  = tables (ack_message conn queue_name job_id).
Proof.
  unfold ack_message, ACK_MESSAGE.
  destruct (scalar_subquery (map queues.id (queues_named (db conn) queue_name)))
    as [e|queue_id] eqn:E; simpl.
  - unfold queues_named in *. simpl. now rewrite E.
  - unfold queues_named in *. simpl. rewrite E. simpl.
    unfold with_messages. simpl. now rewrite filter_twice.
Qed.

Lemma scalar_subquery_some {A : Type} (l : list A) (x : A) :
  scalar_subquery l = inr (Some x) -> l = [x].
Proof.
  destruct l as [|a [|b l]]; simpl; intros H; try discriminate.
  now injection H as ->.
Qed.

(** The tables an extend_deadline that returned a deadline has left. *)
Lemma extend_returned_deadline (conn : connection) (queue_name : string)
    (job_id : uuid) (deadline : timestamptz) :
  result (extend_ack_deadline conn queue_name job_id) = inr (Some deadline) ->
  pgjobq_queues (tables (extend_ack_deadline conn queue_name job_id))
  = pgjobq_queues (db conn) /\
  pgjobq_messages (tables (extend_ack_deadline conn queue_name job_id))
  = map (fun m =>
           if N.eqb (messages.id m) job_id
           then messages.set_available_at deadline m else m)
      (pgjobq_messages (db conn)) /\
  exists q m,
    In q (pgjobq_queues (db conn)) /\ In m (pgjobq_messages (db conn)) /\
    messages.id m = job_id /\ messages.queue_id m = queues.id q /\
    locked conn m = false /\
    deadline = now conn + queues.ack_deadline q.
Proof.
  unfold extend_ack_deadline, EXTEND_ACK_DEADLINE.
  destruct (scalar_subquery (map queues.id _)) as [e|queue_id]; simpl;
    [discriminate|].
  destruct (scalar_subquery (filter _ _)) as [e|[mfu|]] eqn:Emfu; simpl;
    try discriminate.
  destruct (scalar_subquery (map queues.ack_deadline _)) as [e|[d|]] eqn:Ed;
    simpl; try discriminate.
  apply scalar_subquery_some in Emfu.
  assert (Hin : In mfu (filter (fun m => negb (locked conn m))
                          (filter (is_job queue_id job_id)
                             (pgjobq_messages (db conn)))))
    by (rewrite Emfu; now left).
  apply filter_In in Hin. destruct Hin as [Hin Hl].
  apply filter_In in Hin. destruct Hin as [Hin Hj].
  unfold is_job in Hj. apply andb_true_iff in Hj. destruct Hj as [_ Hj].
  apply N.eqb_eq in Hj. rewrite Hj.
  destruct (filter (fun m => N.eqb (messages.id m) job_id)
              (pgjobq_messages (db conn))) as [|x xs] eqn:Ehit;
    simpl; [discriminate|].
  intros H. injection H as <-. split; [reflexivity|]. split; [reflexivity|].
  apply scalar_subquery_some in Ed.
  destruct (filter (fun q => queues.id q =? messages.queue_id mfu)
              (pgjobq_queues (db conn))) as [|q [|q' qs]] eqn:Eq;
    simpl in Ed; try discriminate.
  injection Ed as Ed.
  assert (Hq : In q (filter (fun q => queues.id q =? messages.queue_id mfu)
                       (pgjobq_queues (db conn))))
    by (rewrite Eq; now left).
  apply filter_In in Hq. destruct Hq as [Hq Hqid]. apply Z.eqb_eq in Hqid.
  exists q, mfu. rewrite negb_true_iff in Hl. repeat split; auto; congruence.
Qed.

(** X8.  When extend_deadline returns a deadline, it is [now] plus the
    [ack_deadline] of the job's queue, and no poll that runs on the tables
    it left, on any queue, up to and including that deadline returns the
    job. *)
Theorem extended_job_is_not_polled_before_deadline (conn : connection)
    (queue_name : string) (job_id : uuid) (deadline : timestamptz) :
  unique_queue_names (db conn) ->
  unique_message_ids (db conn) ->
  result (extend_ack_deadline conn queue_name job_id) = inr (Some deadline) ->
  (exists q m,
     In q (pgjobq_queues (db conn)) /\ In m (pgjobq_messages (db conn)) /\
     messages.id m = job_id /\ messages.queue_id m = queues.id q /\
     deadline = now conn + queues.ack_deadline q) /\
  (forall (later : connection) (queue_name' : string) (batch_size : nat)
          (fifo : bool) (rows : list Message.t) (r : Message.t),
     db later = tables (extend_ack_deadline conn queue_name job_id) ->
     now later <= deadline ->
     result (poll_for_messages later queue_name' batch_size fifo) = inr rows ->
     In r rows ->
     Message.id r <> job_id).
Proof.
  intros Hqn Hid Hext.
  destruct (extend_returned_deadline conn queue_name job_id deadline Hext)
    as (Kq & Km & q & m & Hq & Hm & Hmj & Hmq & _ & Hd).
  split; [now exists q, m|].
  intros later queue_name' batch_size fifo rows r Hdb Hnow Hres Hr Heq.
  assert (Hqn' : unique_queue_names (db later))
    by (unfold unique_queue_names; rewrite Hdb, Kq; exact Hqn).
  assert (Hid' : unique_message_ids (db later)).
  { unfold unique_message_ids. rewrite Hdb, Km, map_map.
    erewrite map_ext; [exact Hid|].
    intros x. now destruct (N.eqb (messages.id x) job_id). }
  destruct (poll_returned_row later queue_name' batch_size fifo rows r
              Hqn' Hid' Hres Hr)
    as (q' & m' & _ & _ & Hm' & Hmid & _ & Hw & _).
  apply poll_where_true in Hw. destruct Hw as (_ & _ & Hav & _).
  rewrite Hdb, Km in Hm'. apply in_map_iff in Hm'.
  destruct Hm' as (x & Hx & _).
  destruct (N.eqb (messages.id x) job_id) eqn:Ex.
  - subst m'. simpl in Hav. lia.
  - subst m'. apply N.eqb_neq in Ex. congruence.
Qed.

(** X9.  No call changes the queue table, and no call changes the id, the
    queue, the body or the expiry of a message row: every row of the table
    after a call is a row of the table before with these four fields as they
    were, or the row a publish has just inserted. *)
Theorem calls_keep_id_queue_body_expiry (conn : connection) (c : call) :
  pgjobq_queues (perform conn c) = pgjobq_queues (db conn) /\
  forall m', In m' (pgjobq_messages (perform conn c)) ->
    (exists m, In m (pgjobq_messages (db conn)) /\
               messages.id m' = messages.id m /\
               messages.queue_id m' = messages.queue_id m /\
               messages.body m' = messages.body m /\
               messages.expires_at m' = messages.expires_at m)
    \/
    (exists queue_name message_body delay q,
       c = Publish queue_name (messages.id m') message_body delay /\
       In q (pgjobq_queues (db conn)) /\ queues.name q = queue_name /\
       m' = messages.mk (queues.id q) (messages.id m')
              (now conn + queues.retention_period q)
              (queues.max_delivery_attempts q)
              (now conn + COALESCE delay 0) message_body).
Proof.
  destruct c as [qn mid b dl|qn n f|qn job|qn job|qn job]; simpl.
  - destruct (publish_messages_tables conn qn mid b dl) as [E|(rows & E & Et)].
    + rewrite E. split; [reflexivity|]. intros m' Hin. left. now exists m'.
    + rewrite Et. simpl. split; [reflexivity|]. intros m' Hin.
      destruct (insert_published_rows _ _ _ _ _ _ _ E m' Hin)
        as [Hold|(q & Hq & ->)].
      * left. now exists m'.
      * right. apply queues_named_In in Hq. exists qn, b, dl, q. simpl. tauto.
  - rewrite poll_for_messages_query. unfold _POLL_FOR_MESSAGES.
    destruct (scalar_subquery _) as [e|[q|]]; simpl;
      try (split; [reflexivity|]; intros m' Hin; left; now exists m').
    split; [reflexivity|]. intros m' Hin. left.
    apply in_map_iff in Hin. destruct Hin as (m & <- & Hin).
    exists m. split; [exact Hin|]. now destruct (existsb _ _).
  - unfold ack_message, ACK_MESSAGE.
    destruct (scalar_subquery _) as [e|queue_id]; simpl;
      (split; [reflexivity|]; intros m' Hin; left; exists m').
    + tauto.
    + apply filter_In in Hin. tauto.
  - unfold nack_message, NACK_MESSAGE.
    destruct (scalar_subquery _) as [e|queue_id]; simpl;
      try (split; [reflexivity|]; intros m' Hin; left; now exists m').
    split; [reflexivity|]. intros m' Hin. left.
    apply in_map_iff in Hin. destruct Hin as (m & <- & Hin).
    exists m. split; [exact Hin|]. now destruct (is_job queue_id job m).
  - unfold extend_ack_deadline, EXTEND_ACK_DEADLINE.
    destruct (scalar_subquery (map queues.id _)) as [e|queue_id]; simpl;
      try (split; [reflexivity|]; intros m' Hin; left; now exists m').
    destruct (scalar_subquery (filter _ _)) as [e|[mfu|]]; simpl;
      try (split; [reflexivity|]; intros m' Hin; left; now exists m').
    destruct (scalar_subquery (map queues.ack_deadline _)) as [e|[d|]]; simpl;
      try (split; [reflexivity|]; intros m' Hin; left; now exists m').
    split; [reflexivity|]. intros m' Hin. left.
    apply in_map_iff in Hin. destruct Hin as (m & <- & Hin).
    exists m. split; [exact Hin|].
    now destruct (N.eqb (messages.id m) (messages.id mfu)).
Qed.

(** X10.  A nack raises nothing; when a queue of that name is in the table it
    emits one [pgjobq.new_job] notification carrying the queue name, whether
    or not a row matched, and when no queue has that name it emits none; a
    poll and an extend_deadline emit no notification. *)
Theorem nack_notifies_if_queue_poll_and_extend_do_not (conn : connection)
    (queue_name : string) (job_id : uuid) (batch_size : nat) (fifo : bool) :
  unique_queue_names (db conn) ->
  result (nack_message conn queue_name job_id) = inr tt /\
  (queue_exists (db conn) queue_name ->
   sent (nack_message conn queue_name job_id)
   = [{| channel := "pgjobq.new_job"; payload := queue_name |}]) /\
  (~ queue_exists (db conn) queue_name ->
   sent (nack_message conn queue_name job_id) = []) /\
  sent (poll_for_messages conn queue_name batch_size fifo) = [] /\
  sent (extend_ack_deadline conn queue_name job_id) = [].
Proof.
  intros Hqn. split; [|split; [|split; [|split]]].
  - unfold nack_message, NACK_MESSAGE.
    now destruct (queue_id_found _ queue_name Hqn) as (queue_id & -> & _).
  - intros Hq. unfold nack_message, NACK_MESSAGE.
    destruct (queue_id_found _ queue_name Hqn) as (queue_id & -> & Hex & _).
    cbn [execute sent notified]. apply job_notification_cases. now apply Hex.
  - intros Hq. unfold nack_message, NACK_MESSAGE.
    destruct (queue_id_found _ queue_name Hqn) as (queue_id & -> & Hex & _).
    cbn [execute sent notified]. apply job_notification_cases.
    destruct queue_id; [|reflexivity]. exfalso. apply Hq, Hex. discriminate.
  - rewrite poll_for_messages_query. unfold _POLL_FOR_MESSAGES.
    now destruct (scalar_subquery _) as [e|[q|]].
  - unfold extend_ack_deadline, EXTEND_ACK_DEADLINE.
    destruct (scalar_subquery (map queues.id _)) as [e|queue_id]; simpl; auto.
    destruct (scalar_subquery (filter _ _)) as [e|[mfu|]]; simpl; auto.
    now destruct (scalar_subquery (map queues.ack_deadline _)) as [e|[d|]].
Qed.

(** X11.  A poll of one queue leaves every row of every other queue where it
    is and as it is. *)
Theorem poll_leaves_other_queues_alone (conn : connection) (q : queues.row)
    (batch_size : nat) (fifo : bool) (i : nat) (m : messages.row) :
  unique_queue_names (db conn) ->
  unique_message_ids (db conn) ->
  In q (pgjobq_queues (db conn)) ->
  nth_error (pgjobq_messages (db conn)) i = Some m ->
  messages.queue_id m <> queues.id q ->
  nth_error
    (pgjobq_messages
       (tables (poll_for_messages conn (queues.name q) batch_size fifo))) i
  = Some m.
Proof.
  intros Hqn Hid Hq Hi Hne.
  destruct (poll_for_messages_on conn q batch_size fifo Hqn Hid Hq)
    as (rows & E & _).
  rewrite E. simpl. rewrite nth_error_map, Hi. simpl. f_equal.
  destruct (existsb _ _) eqn:Ex; [|reflexivity].
  apply (selected_rows_joins _ (scan_order_perm fifo)) in Ex; auto.
  - apply (selected_rows_In _ (scan_order_perm fifo)) in Ex.
    destruct Ex as (_ & Hw & _). apply poll_where_true in Hw. tauto.
  - eapply nth_error_In; eauto.
Qed.

(** * How often a job is handed out *)

Lemma find_by_id_map (g : messages.row -> messages.row) (job_id : uuid)
    (l : list messages.row) :
  (forall m, messages.id (g m) = messages.id m) ->
  find (fun m => N.eqb (messages.id m) job_id) (map g l)
  = option_map g (find (fun m => N.eqb (messages.id m) job_id) l).
Proof.
  intros Hg. induction l as [|a l IH]; simpl; [reflexivity|].
  rewrite Hg. now destruct (N.eqb (messages.id a) job_id).
Qed.

Lemma find_by_id_unique (l : list messages.row) (m : messages.row) :
  NoDup (map messages.id l) -> In m l ->
  find (fun x => N.eqb (messages.id x) (messages.id m)) l = Some m.
Proof.
  induction l as [|a l IH]; simpl; intros Hnd Hin; [contradiction|].
  inversion Hnd as [|? ? Hnotin Hnd']; subst.
  destruct (N.eqb (messages.id a) (messages.id m)) eqn:E.
  - apply N.eqb_eq in E. destruct Hin as [->|Hin]; [reflexivity|].
    exfalso. apply Hnotin. rewrite E. now apply in_map.
  - destruct Hin as [->|Hin]; [now rewrite N.eqb_refl in E|]. now apply IH.
Qed.

Lemma find_by_id_app_other (l : list messages.row) (x : messages.row)
    (job_id : uuid) :
  messages.id x <> job_id ->
  find (fun m => N.eqb (messages.id m) job_id) (l ++ [x])
  = find (fun m => N.eqb (messages.id m) job_id) l.
Proof.
  intros Hne. induction l as [|a l IH]; simpl.
  - apply N.eqb_neq in Hne. now rewrite Hne.
  - now destruct (N.eqb (messages.id a) job_id).
Qed.

Lemma attempts_left_nonneg (d : database) (job_id : uuid) :
  attempts_nonneg d -> 0 <= attempts_left d job_id.
Proof.
  unfold attempts_nonneg, attempts_left. rewrite Forall_forall. intros H.
  destruct (find _ _) as [m|] eqn:E; [|lia].
  apply find_some in E. now apply H.
Qed.

Lemma attempts_left_rescheduled (d d' : database) (job_id : uuid) :
  rescheduled d d' -> attempts_left d' job_id = attempts_left d job_id.
Proof.
  intros (_ & g & Hm & Hg). unfold attempts_left.
  rewrite Hm, find_by_id_map by apply Hg.
  destruct (find _ _) as [m|]; simpl; [apply Hg|reflexivity].
Qed.

(** A call that does not publish the job takes from its counter what it
    hands out. *)
Lemma perform_spends_attempt (conn : connection) (c : call) (job_id : uuid) :
  consistent (db conn) -> fresh (db conn) c -> publishes c job_id = false ->
  attempts_left (perform conn c) job_id
  + (if delivers conn c job_id then 1 else 0)
  <= attempts_left (db conn) job_id.
Proof.
  intros (H1 & H2 & H3 & H4) Hf Hp.
  destruct c as [qn mid b dl|qn n f|qn job|qn job|qn job]; simpl in *.
  - apply N.eqb_neq in Hp.
    destruct (publish_messages_outcome conn qn mid b dl H1)
      as [[_ E]|[(e & _ & E)|(q & Hq & _ & _ & E)]]; rewrite E; simpl; try lia.
    unfold attempts_left.
    simpl. rewrite find_by_id_app_other by exact Hp. lia.
  - destruct (poll_for_messages_outcome conn qn n f H1 H3)
      as [[_ E]|(q & rows & Hq & Hname & E & Hperm)]; rewrite E; simpl; [lia|].
    unfold attempts_left. simpl.
    rewrite find_by_id_map by (intros m; now destruct (existsb _ _)).
    destruct (find _ (pgjobq_messages (db conn))) as [m|] eqn:Efind; simpl.
    + apply find_some in Efind. destruct Efind as [Hin Hmid].
      apply N.eqb_eq in Hmid.
      destruct (existsb (fun r => N.eqb (Message.id r) job_id) _) eqn:Ed.
      * apply existsb_exists in Ed. destruct Ed as (r & Hr & Hrid).
        apply N.eqb_eq in Hrid. apply (Permutation_in _ Hperm) in Hr.
        apply in_map_iff in Hr.
        destruct Hr as (s & <- & Hs). simpl in Hrid.
        assert (s = m).
        { apply (unique_id_eq (db conn)); auto; [|congruence].
          now apply (selected_rows_In _ (scan_order_perm f)) in Hs. }
        subst s.
        apply (selected_rows_joins _ (scan_order_perm f)) in Hs; auto.
        rewrite Hs. simpl. lia.
      * destruct (existsb (N.eqb (messages.id m)) _); simpl; lia.
    + destruct (existsb (fun r => N.eqb (Message.id r) job_id) _) eqn:Ed; [|lia].
      apply existsb_exists in Ed. destruct Ed as (r & Hr & Hrid).
      apply (Permutation_in _ Hperm) in Hr.
      apply in_map_iff in Hr. destruct Hr as (s & <- & Hs). simpl in Hrid.
      apply (selected_rows_In _ (scan_order_perm f)) in Hs.
      destruct Hs as (Hs & _).
      now rewrite (find_none _ _ Efind s Hs) in Hrid.
  - unfold ack_message, ACK_MESSAGE.
    destruct (scalar_subquery _) as [e|queue_id]; simpl; [lia|].
    unfold attempts_left at 1. simpl.
    destruct (find _ (filter _ _)) as [m'|] eqn:Efind.
    + apply find_some in Efind. destruct Efind as [Hin Hmid].
      apply filter_In in Hin. destruct Hin as [Hin _].
      apply N.eqb_eq in Hmid. subst job_id. unfold attempts_left.
      rewrite (find_by_id_unique _ m' H3 Hin). lia.
    + pose proof (attempts_left_nonneg (db conn) job_id H4). lia.
  - rewrite (attempts_left_rescheduled _ _ _ (nack_rescheduled conn qn job)). lia.
  - rewrite (attempts_left_rescheduled _ _ _ (extend_rescheduled conn qn job)). lia.
Qed.

(** X12.  In any sequence of calls that does not publish the job again, the
    job is handed out by at most as many polls as its counter allowed at the
    start: a message published to a queue is delivered at most
    [max_delivery_attempts] times. *)
Theorem job_delivered_at_most_attempts_left (d : database) (trace : list step)
    (job_id : uuid) :
  unique_queue_names d ->
  attempts_positive d ->
  unique_message_ids d ->
  attempts_nonneg d ->
  publishes_fresh_ids d trace ->
  Forall (fun s => publishes (does s) job_id = false) trace ->
  Z.of_nat (deliveries d trace job_id) <= attempts_left d job_id.
Proof.
  intros H1 H2 H3 H4.
  assert (Hc : consistent d) by (repeat split; assumption).
  clear H1 H2 H3 H4. revert d Hc.
  induction trace as [|s rest IH]; simpl; intros d Hc Hf Hp.
  - apply attempts_left_nonneg, Hc.
  - destruct Hf as [Hs Hrest]. inversion Hp as [|? ? Hps Hprest]; subst.
    set (conn := {| db := d; now := at_time s; locked := locked_then s |}).
    pose proof (perform_spends_attempt conn (does s) job_id Hc Hs Hps) as Hstep.
    assert (Hc' : consistent (after d s)) by now apply (perform_consistent conn).
    specialize (IH (after d s) Hc' Hrest Hprest).
    change (after d s) with (perform conn (does s)) in *.
    fold conn. simpl in Hstep.
    destruct (delivers conn (does s) job_id); lia.
Qed.

(** * The payload of job_completed *)

Lemma hex_value_digit (d : N) : (d < 16)%N -> hex_value (hex_digit d) = d.
Proof.
  intros H.
  assert (E : (d = 0 \/ d = 1 \/ d = 2 \/ d = 3 \/ d = 4 \/ d = 5 \/ d = 6 \/
               d = 7 \/ d = 8 \/ d = 9 \/ d = 10 \/ d = 11 \/ d = 12 \/
               d = 13 \/ d = 14 \/ d = 15)%N) by lia.
  repeat (destruct E as [->|E]; [reflexivity|]). now subst.
Qed.

Lemma land_15 (n : N) : N.land n 15 = (n mod 16)%N.
Proof. change 15%N with (N.ones 4). now rewrite N.land_ones. Qed.

Lemma hex_digits_length (w : nat) (n : N) (acc : string) :
  String.length (hex_digits w n acc) = (w + String.length acc)%nat.
Proof.
  revert n acc. induction w as [|w IH]; intros n acc; simpl; [reflexivity|].
  rewrite IH. simpl. lia.
Qed.

Lemma hex_digits_S (w : nat) (n : N) (acc : string) :
  hex_digits (S w) n acc
  = hex_digits w (N.shiftr n 4) (String (hex_digit (N.land n 15)) acc).
Proof. reflexivity. Qed.

Lemma hex_digits_inj (w : nat) (n1 n2 : N) (acc1 acc2 : string) :
  hex_digits w n1 acc1 = hex_digits w n2 acc2 ->
  String.length acc1 = String.length acc2 ->
  (n1 mod 16 ^ N.of_nat w = n2 mod 16 ^ N.of_nat w)%N /\ acc1 = acc2.
Proof.
  revert n1 n2 acc1 acc2.
  induction w as [|w IH]; intros n1 n2 acc1 acc2 Heq Hlen.
  - simpl in *. now rewrite !N.mod_1_r.
  - rewrite !hex_digits_S in Heq. apply IH in Heq; [|simpl; congruence].
    destruct Heq as [Hhigh Hacc]. injection Hacc as Hd ->.
    split; [|reflexivity].
    apply (f_equal hex_value) in Hd.
    rewrite !hex_value_digit in Hd
      by (rewrite land_15; apply N.mod_upper_bound; discriminate).
    rewrite !land_15 in Hd. rewrite !N.shiftr_div_pow2 in Hhigh.
    change (2 ^ 4)%N with 16%N in Hhigh.
    rewrite Nat2N.inj_succ, N.pow_succ_r'.
    rewrite !N.Div0.mod_mul_r. congruence.
Qed.

Ltac peel h H :=
  destruct h as [|? h]; [discriminate H|]; simpl in H; injection H as H.

(** The five groups and four dashes keep every digit. *)
Lemma dashed_inj (h1 h2 : string) :
  String.length h1 = 32%nat -> String.length h2 = 32%nat ->
  (substring 0 8 h1 ++ "-" ++ substring 8 4 h1 ++ "-" ++ substring 12 4 h1 ++ "-"
     ++ substring 16 4 h1 ++ "-" ++ substring 20 12 h1)%string
  = (substring 0 8 h2 ++ "-" ++ substring 8 4 h2 ++ "-" ++ substring 12 4 h2 ++ "-"
       ++ substring 16 4 h2 ++ "-" ++ substring 20 12 h2)%string ->
  h1 = h2.
Proof.
  intros H1 H2.
  do 32 (peel h1 H1). destruct h1; [|discriminate H1].
  do 32 (peel h2 H2). destruct h2; [|discriminate H2].
  simpl. intros Heq. injection Heq. intros. subst. reflexivity.
Qed.

Lemma dashed_length (h : string) :
  String.length h = 32%nat ->
  String.length
    (substring 0 8 h ++ "-" ++ substring 8 4 h ++ "-" ++ substring 12 4 h ++ "-"
       ++ substring 16 4 h ++ "-" ++ substring 20 12 h)%string
  = 36%nat.
Proof.
  intros H. do 32 (peel h H). destruct h; [|discriminate H]. reflexivity.
Qed.

Lemma uuid_text_length (u : uuid) : String.length (uuid_text u) = 36%nat.
Proof.
  unfold uuid_text. apply dashed_length. now rewrite hex_digits_length.
Qed.

Lemma uuid_text_inj (u1 u2 : uuid) :
  (u1 < 2 ^ 128)%N -> (u2 < 2 ^ 128)%N ->
  uuid_text u1 = uuid_text u2 -> u1 = u2.
Proof.
  intros B1 B2 Heq. unfold uuid_text in Heq.
  apply dashed_inj in Heq; try now rewrite hex_digits_length.
  apply hex_digits_inj in Heq; [|reflexivity]. destruct Heq as [Hmod _].
  change (16 ^ N.of_nat 32)%N with (2 ^ 128)%N in Hmod.
  now rewrite !N.mod_small in Hmod.
Qed.

Lemma append_length (s t : string) :
  String.length (s ++ t)%string = (String.length s + String.length t)%nat.
Proof. induction s as [|c s IH]; simpl; congruence. Qed.

Lemma append_inj_same_suffix_length (s1 s2 t1 t2 : string) :
  String.length t1 = String.length t2 ->
  (s1 ++ t1)%string = (s2 ++ t2)%string -> s1 = s2 /\ t1 = t2.
Proof.
  revert s2. induction s1 as [|c s1 IH]; intros [|c2 s2] Hlen Heq; simpl in Heq.
  - now split.
  - exfalso. apply (f_equal String.length) in Heq. simpl in Heq.
    rewrite append_length in Heq. lia.
  - exfalso. apply (f_equal String.length) in Heq. simpl in Heq.
    rewrite append_length in Heq. lia.
  - injection Heq as -> Heq. destruct (IH s2 Hlen Heq) as [-> ->]. now split.
Qed.

(** X13.  The payload of a [pgjobq.job_completed] notification ends in the 36
    characters of the job id, and it tells the queue name and the job id
    apart, also when the queue name holds commas: two acks on queues that
    are in the table that emit the same notification were given the same
    queue name and the same 128-bit id. *)
Theorem job_completed_payload_names_one_job (conn1 conn2 : connection)
    (queue_name1 queue_name2 : string) (job_id1 job_id2 : uuid) :
  unique_queue_names (db conn1) ->
  unique_queue_names (db conn2) ->
  queue_exists (db conn1) queue_name1 ->
  queue_exists (db conn2) queue_name2 ->
  (job_id1 < 2 ^ 128)%N ->
  (job_id2 < 2 ^ 128)%N ->
  sent (ack_message conn1 queue_name1 job_id1)
  = sent (ack_message conn2 queue_name2 job_id2) ->
  queue_name1 = queue_name2 /\ job_id1 = job_id2.
Proof.
  intros H1 H2 E1 E2 B1 B2. unfold ack_message, ACK_MESSAGE.
  destruct (queue_id_found _ queue_name1 H1) as (q1 & -> & Hq1 & _).
  destruct (queue_id_found _ queue_name2 H2) as (q2 & -> & Hq2 & _).
  apply Hq1 in E1. apply Hq2 in E2.
  destruct q1 as [i1|]; [|congruence]. destruct q2 as [i2|]; [|congruence].
  cbn [execute sent notified job_notification]. intros Heq.
  injection Heq as Heq.
  apply append_inj_same_suffix_length in Heq.
  - destruct Heq as [Hq Ht]. split; [exact Hq|].
    apply (f_equal (fun s => match s with
                             | String _ rest => rest
                             | EmptyString => EmptyString
                             end)) in Ht.
    cbv beta iota in Ht. exact (uuid_text_inj _ _ B1 B2 Ht).
  - cbn [String.length]. rewrite !uuid_text_length. reflexivity.
Qed.

(** * The further theorems on the small databases *)

Ltac two_jobs_keys :=
  first [ unfold unique_queue_names | unfold unique_queue_ids
        | unfold unique_message_ids ];
  simpl; distinct.

Example retries_deliver_three_times :
  deliveries Workload.two_queues Workload.retries 2%N = 3%nat /\
  attempts_left Workload.two_queues 2%N = 3 /\
  attempts_left (run Workload.two_queues Workload.retries) 2%N = 0.
Proof. repeat split; reflexivity. Qed.


Lemma no_redelivery_before_ack_deadline_witness :
  unique_queue_names Scenario.two_jobs /\
  unique_message_ids Scenario.two_jobs /\
  result (poll_for_messages (Scenario.connect Scenario.two_jobs 5) "jobs" 1 true)
  = inr [Message.mk 1%N [] 15] /\
  result (poll_for_messages
            (Scenario.connect
               (tables (poll_for_messages
                          (Scenario.connect Scenario.two_jobs 5) "jobs" 1 true))
               15)
            "jobs" 2 false)
  = inr [Message.mk 2%N [] 25] /\
  2%N <> 1%N.
Proof.
  assert (H1 : unique_queue_names Scenario.two_jobs) by two_jobs_keys.
  assert (H2 : unique_message_ids Scenario.two_jobs) by two_jobs_keys.
  split; [exact H1|]. split; [exact H2|]. split; [reflexivity|].
  split; [reflexivity|].
  apply (no_redelivery_before_ack_deadline
           (Scenario.connect Scenario.two_jobs 5)
           (Scenario.connect
              (tables (poll_for_messages
                         (Scenario.connect Scenario.two_jobs 5) "jobs" 1 true))
              15)
           Scenario.jobs 1 2 true false "jobs"
           [Message.mk 1%N [] 15] [Message.mk 2%N [] 25]
           (Message.mk 1%N [] 15) (Message.mk 2%N [] 25));
    try reflexivity; try assumption; simpl; try tauto; lia.
Defined.

Lemma published_message_polled_only_in_window_witness :
  unique_queue_names Scenario.no_messages /\
  unique_message_ids Scenario.no_messages /\
  result (poll_for_messages
            (Scenario.connect
               (tables (publish_messages
                          (Scenario.connect Scenario.no_messages 0)
                          "jobs" 2%N [] None))
               5)
            "jobs" 1 false)
  = inr [Message.mk 2%N [] 15] /\
  0 + 0 < 5 /\ 5 < 0 + 1000 /\ 3 <> 0 /\ @nil Byte.byte = [].
Proof.
  assert (H1 : unique_queue_names Scenario.no_messages) by two_jobs_keys.
  assert (H2 : unique_message_ids Scenario.no_messages) by two_jobs_keys.
  split; [exact H1|]. split; [exact H2|]. split; [reflexivity|].
  apply (published_message_polled_only_in_window
           (Scenario.connect Scenario.no_messages 0)
           (Scenario.connect
              (tables (publish_messages
                         (Scenario.connect Scenario.no_messages 0)
                         "jobs" 2%N [] None))
              5)
           Scenario.jobs 2%N [] None "jobs" 1 false
           [Message.mk 2%N [] 15] (Message.mk 2%N [] 15));
    try reflexivity; try assumption; simpl; tauto.
Defined.



Lemma acked_job_is_not_polled_witness :
  unique_queue_names Scenario.two_jobs /\
  unique_message_ids Scenario.two_jobs /\
  result (poll_for_messages
            (Scenario.connect
               (tables (ack_message (Scenario.connect Scenario.two_jobs 5)
                          "jobs" 2%N))
               6)
            "jobs" 2 false)
  = inr [Message.mk 1%N [] 16] /\
  1%N <> 2%N.
Proof.
  assert (H1 : unique_queue_names Scenario.two_jobs) by two_jobs_keys.
  assert (H2 : unique_message_ids Scenario.two_jobs) by two_jobs_keys.
  split; [exact H1|]. split; [exact H2|]. split; [reflexivity|].
  apply (acked_job_is_not_polled
           (Scenario.connect Scenario.two_jobs 5)
           (Scenario.connect
              (tables (ack_message (Scenario.connect Scenario.two_jobs 5)
                         "jobs" 2%N))
              6)
           "jobs" 2%N 2 false
           [Message.mk 1%N [] 16] (Message.mk 1%N [] 16));
    try reflexivity; try assumption; simpl; tauto.
Defined.

Lemma extended_job_is_not_polled_before_deadline_witness :
  unique_queue_names Scenario.two_jobs /\
  unique_message_ids Scenario.two_jobs /\
  result (extend_ack_deadline (Scenario.connect Scenario.two_jobs 7) "jobs" 2%N)
  = inr (Some 17) /\
  (exists q m,
     In q [Scenario.jobs; Scenario.mail] /\
     In m [Scenario.first_job; Scenario.second_job] /\
     messages.id m = 2%N /\ messages.queue_id m = queues.id q /\
     17 = 7 + queues.ack_deadline q) /\
  result (poll_for_messages
            (Scenario.connect
               (tables (extend_ack_deadline
                          (Scenario.connect Scenario.two_jobs 7) "jobs" 2%N))
               17)
            "jobs" 2 false)
  = inr [Message.mk 1%N [] 27] /\
  1%N <> 2%N.
Proof.
  assert (H1 : unique_queue_names Scenario.two_jobs) by two_jobs_keys.
  assert (H2 : unique_message_ids Scenario.two_jobs) by two_jobs_keys.
  split; [exact H1|]. split; [exact H2|]. split; [reflexivity|].
  destruct (extended_job_is_not_polled_before_deadline
              (Scenario.connect Scenario.two_jobs 7) "jobs" 2%N 17 H1 H2 eq_refl)
    as [Hdeadline Hlater].
  split; [exact Hdeadline|]. split; [reflexivity|].
  apply (Hlater
           (Scenario.connect
              (tables (extend_ack_deadline
                         (Scenario.connect Scenario.two_jobs 7) "jobs" 2%N))
              17)
           "jobs" 2%nat false
           [Message.mk 1%N [] 27] (Message.mk 1%N [] 27));
    try reflexivity; simpl; try tauto; lia.
Defined.

Lemma nack_notifies_if_queue_poll_and_extend_do_not_witness :
  unique_queue_names Scenario.two_jobs /\
  queue_exists Scenario.two_jobs "jobs" /\
  sent (nack_message (Scenario.connect Scenario.two_jobs 6) "jobs" 7%N)
  = [{| channel := "pgjobq.new_job"; payload := "jobs" |}] /\
  tables (nack_message (Scenario.connect Scenario.two_jobs 6) "jobs" 7%N)
  = Scenario.two_jobs /\
  ~ queue_exists Scenario.two_jobs "missing" /\
  sent (nack_message (Scenario.connect Scenario.two_jobs 6) "missing" 2%N) = [].
Proof.
  assert (H1 : unique_queue_names Scenario.two_jobs) by two_jobs_keys.
  assert (H2 : queue_exists Scenario.two_jobs "jobs")
    by (exists Scenario.jobs; simpl; tauto).
  assert (H3 : ~ queue_exists Scenario.two_jobs "missing").
  { intros (q & Hq & Hname). simpl in Hq.
    destruct Hq as [<-|[<-|[]]]; discriminate. }
  split; [exact H1|].
  destruct (nack_notifies_if_queue_poll_and_extend_do_not
              (Scenario.connect Scenario.two_jobs 6) "jobs" 7%N 1 false H1)
    as (_ & Hs & _).
  destruct (nack_notifies_if_queue_poll_and_extend_do_not
              (Scenario.connect Scenario.two_jobs 6) "missing" 2%N 1 false H1)
    as (_ & _ & Hn & _).
  split; [exact H2|]. split; [exact (Hs H2)|]. split; [reflexivity|].
  split; [exact H3|exact (Hn H3)].
Defined.

Lemma poll_leaves_other_queues_alone_witness :
  unique_queue_names Workload.two_queues /\
  unique_message_ids Workload.two_queues /\
  result (poll_for_messages (Scenario.connect Workload.two_queues 5) "jobs" 5 true)
  = inr [Message.mk 2%N [] 15] /\
  nth_error
    (pgjobq_messages
       (tables (poll_for_messages
                  (Scenario.connect Workload.two_queues 5) "jobs" 5 true))) 1
  = Some Workload.mail_job.
Proof.
  assert (H1 : unique_queue_names Workload.two_queues) by two_jobs_keys.
  assert (H2 : unique_message_ids Workload.two_queues) by two_jobs_keys.
  split; [exact H1|]. split; [exact H2|]. split; [reflexivity|].
  apply (poll_leaves_other_queues_alone
           (Scenario.connect Workload.two_queues 5) Scenario.jobs 5 true 1
           Workload.mail_job);
    try reflexivity; try assumption; simpl; try tauto; discriminate.
Defined.

Lemma job_delivered_at_most_attempts_left_witness :
  unique_queue_names Workload.two_queues /\
  attempts_positive Workload.two_queues /\
  unique_message_ids Workload.two_queues /\
  attempts_nonneg Workload.two_queues /\
  publishes_fresh_ids Workload.two_queues Workload.retries /\
  Z.of_nat (deliveries Workload.two_queues Workload.retries 2%N) <= 3.
Proof.
  assert (H1 : unique_queue_names Workload.two_queues) by two_jobs_keys.
  assert (H2 : attempts_positive Workload.two_queues)
    by (unfold attempts_positive; simpl; each_row).
  assert (H3 : unique_message_ids Workload.two_queues) by two_jobs_keys.
  assert (H4 : attempts_nonneg Workload.two_queues)
    by (unfold attempts_nonneg; simpl; each_row).
  assert (H5 : publishes_fresh_ids Workload.two_queues Workload.retries)
    by (simpl; tauto).
  repeat (split; [assumption|]).
  apply (job_delivered_at_most_attempts_left
           Workload.two_queues Workload.retries 2%N H1 H2 H3 H4 H5).
  unfold Workload.retries. repeat (apply Forall_cons; [reflexivity|]).
  apply Forall_nil.
Defined.

Lemma job_completed_payload_names_one_job_witness :
  unique_queue_names Scenario.two_jobs /\
  queue_exists Scenario.two_jobs "jobs" /\
  (2 < 2 ^ 128)%N /\
  sent (ack_message (Scenario.connect Scenario.two_jobs 5) "jobs" 2%N)
  = sent (ack_message (Scenario.connect Scenario.two_jobs 9) "jobs" 2%N) /\
  "jobs" = "jobs" /\ 2%N = 2%N.
Proof.
  assert (H1 : unique_queue_names Scenario.two_jobs) by two_jobs_keys.
  assert (H2 : (2 < 2 ^ 128)%N) by reflexivity.
  assert (H3 : queue_exists Scenario.two_jobs "jobs")
    by (exists Scenario.jobs; simpl; tauto).
  split; [exact H1|]. split; [exact H3|]. split; [exact H2|]. split; [reflexivity|].
  apply (job_completed_payload_names_one_job
           (Scenario.connect Scenario.two_jobs 5)
           (Scenario.connect Scenario.two_jobs 9)
           "jobs" "jobs" 2%N 2%N H1 H1 H3 H3 H2 H2).
  reflexivity.
Defined.
